(** * The node runtime of eclus (src/erlang/node/node.go)

    A shallow embedding of the Erlang-distribution node: construction of the
    node descriptor, the process table and its identity allocation, the name
    registry, the EPMD handshake of [Publish] and the dispatch of decoded
    frames to mailboxes.

    Conventions of the embedding.
    - Go's fixed-width integers are [Z] with the wrap-around written out
      ([uint32], [uint16], [byte]); Go's [int] is [Z].
    - Go strings are [string] (sequences of bytes).
    - Go maps are [gmap]; [NewNode] is the only constructor of a node and it
      makes both maps, so a nil map is never met.
    - A [range] over a map visits the keys in an unspecified order: every
      function that ranges takes the order of the visit as an argument, and
      [range_order] says that the argument is an enumeration of the map.
    - Channels are references: they live in a store ([heap]) and a
      [procChannels] holds indices into it; the nil channel is [None].
    - A function that can fault returns a [result]; a function that ends in a
      channel send returns an [Outcome]. *)

From Stdlib Require Import ZArith String Ascii List.
From stdpp Require Import base option list gmap fin_maps strings.

Local Open Scope Z_scope.
Local Set Warnings "-register-all".

(** ** Results of fallible code *)

Inductive result (A : Type) : Type :=
| Ok (a : A)
| Panic.
Arguments Ok {A} a.
Arguments Panic {A}.

Global Instance result_ret : MRet result := fun _ a => Ok a.

Global Instance result_bind : MBind result := fun _ _ k r =>
  match r with
  | Ok a => k a
  | Panic => Panic
  end.

(** ** Fixed-width integers *)

Definition uint32 (z : Z) : Z := z mod 2 ^ 32.
Definition uint16 (z : Z) : Z := z mod 2 ^ 16.
Definition byte (z : Z) : Z := z mod 2 ^ 8.

(** ** Package [strings]: [Split] with a one-byte separator, as [NewNode]
    calls it ([strings.Split(name, "@")]).  The result is never empty: a
    string without the separator is returned whole, as the only part. *)

Fixpoint Split (s : string) (sep : ascii) : list string :=
  match s with
  | EmptyString => [EmptyString]
  | String c s' =>
      if Ascii.eqb c sep then EmptyString :: Split s' sep
      else match Split s' sep with
           | [] => [String c EmptyString]
           | part :: parts => String c part :: parts
           end
  end.

(** What the specification speaks of: whether a byte occurs in a string, the
    part of the string before its first occurrence and the part after it. *)

Fixpoint contains (s : string) (sep : ascii) : bool :=
  match s with
  | EmptyString => false
  | String c s' => Ascii.eqb c sep || contains s' sep
  end.

Fixpoint before_first (s : string) (sep : ascii) : string :=
  match s with
  | EmptyString => EmptyString
  | String c s' =>
      if Ascii.eqb c sep then EmptyString else String c (before_first s' sep)
  end.

Fixpoint after_first (s : string) (sep : ascii) : string :=
  match s with
  | EmptyString => EmptyString
  | String c s' => if Ascii.eqb c sep then s' else after_first s' sep
  end.

(** ** Package [term] *)

Module term.

Definition Atom : Type := string.

(** Modelled from the spec: [term.Pid] is declared outside this file; the
    spec gives its fields (origin node name, numeric id, serial, creation
    stamp) and [allocatePid] fixes their types: [Id] is compared with and
    assigned from a [uint32], [Creation] is assigned a [byte]. *)
Record Pid : Type := mkPid {
  Node : Atom;
  Id : Z;
  Serial : Z;
  Creation : Z
}.

(** The zero value of [Pid], what a map lookup yields for a missing key. *)
Definition zero : Pid := mkPid EmptyString 0 0 0.

(** Modelled from the spec: [term.Term] is declared outside this file; the
    spec lists symbolic names, identities and ordered tuples, and
    [handleTerms] discriminates [term.Int] as well.  [Opaque] stands for
    every other wire value. *)
Inductive Term : Type :=
| Int (z : Z)
| AtomT (a : Atom)
| PidT (p : Pid)
| Tuple (elems : list Term)
| Opaque (tag : nat).

(** Modelled from the spec: [Tuple.Element] is 1-based positional access;
    an index outside the tuple is a run-time fault ([None]). *)
Definition Element (t : list Term) (i : nat) : option Term :=
  match i with
  | O => None
  | S j => t !! j
  end.

End term.

Arguments term.Element : simpl never.

Global Instance Pid_eq_dec : EqDecision term.Pid.
Proof. solve_decision. Defined.

Global Instance Pid_countable : Countable term.Pid.
Proof.
  refine (inj_countable'
            (fun p => (term.Node p, term.Id p, term.Serial p, term.Creation p))
            (fun t => match t with (n, i, s, c) => term.mkPid n i s c end) _).
  by intros [].
Defined.

(** ** Package [epmd] *)

Module epmd.

(** Modelled from the spec: [epmd.NodeInfo] is declared outside this file;
    its fields are the ones [NewNode] initialises. *)
Record NodeInfo : Type := mkNodeInfo {
  FullName : string;
  Name : string;
  Domain : string;
  Port : Z;
  Type_ : Z;
  Protocol : Z;
  HighVsn : Z;
  LowVsn : Z;
  Creation : Z
}.

End epmd.

(** ** The node *)

(** A channel: its capacity and the values sent and not yet received, oldest
    first.  The first [cap] of them sit in the buffer; a value beyond that
    belongs to a sender that waits for the receiver. *)
Record Chan : Type := mkChan {
  cap : Z;
  queue : list term.Term
}.

(** Whether a send finds room in the buffer of a channel. *)
Definition has_room (ch : Chan) : bool :=
  Z.of_nat (length (queue ch)) <? cap ch.

(** The channel after a send of [v]. *)
Definition enqueue (v : term.Term) (ch : Chan) : Chan :=
  mkChan (cap ch) (queue ch ++ [v]).

Definition chanref : Type := option nat.

Record procChannels : Type := mkProcChannels {
  in_ : chanref;
  inFrom : chanref;
  ctl : chanref
}.

(** The zero value of [procChannels]: three nil channels. *)
Definition noChannels : procChannels := mkProcChannels None None None.

Record Node : Type := mkNode {
  NodeInfo : epmd.NodeInfo;
  Cookie : string;
  port : Z;
  channels : gmap term.Pid procChannels;
  registered : gmap term.Atom term.Pid
}.

Definition FullName (n : Node) : string := epmd.FullName (NodeInfo n).
Definition Creation (n : Node) : Z := epmd.Creation (NodeInfo n).

Definition at_sign : ascii := "@"%char.

Definition NewNode (name : string) (cookie : string) : result Node :=
  let ns := Split name at_sign in
  match ns !! 0%nat, ns !! 1%nat with
  | Some ns0, Some ns1 =>
      let nodeInfo :=
        {| epmd.FullName := name;
           epmd.Name := ns0;
           epmd.Domain := ns1;
           epmd.Port := 0;
           epmd.Type_ := 77;
           epmd.Protocol := 0;
           epmd.HighVsn := 5;
           epmd.LowVsn := 5;
           epmd.Creation := 0 |} in
      Ok {| NodeInfo := nodeInfo;
            Cookie := cookie;
            port := 0;
            channels := ∅;
            registered := ∅ |}
  | _, _ => Panic
  end.

(** ** The store and the effects *)

(** Values of type [interface{}]: the options of a process and the
    arguments handed to its loop. *)
Inductive Value : Type :=
| VInt (z : Z)
| VString (s : string)
| VBool (b : bool)
| VNode.

(** The type assertion [v.(int)] in its two-result form; [v] is the result
    of indexing the options, [None] when the key is missing. *)
Definition assert_int (v : option Value) : Z * bool :=
  match v with
  | Some (VInt z) => (z, true)
  | _ => (0, false)
  end.

(** A process descriptor, as far as [Spawn] looks at it: the options that
    [pd.Behaviour()] returns. *)
Record Process : Type := mkProcess {
  Behaviour : gmap string Value
}.

(** What the node does to the outside, and its writes to the node
    descriptor, in the order of execution. *)
Inductive Event : Type :=
| EvListen (p : Z)
| EvSetPort (p : Z)
| EvGoEpmdC
| EvSetCreation (c : Z)
| EvGoAccept
| EvGoProcessLoop (pid : term.Pid) (pcs : procChannels) (args : list Value).

Record State : Type := mkState {
  node : Node;
  heap : list Chan;
  trace : list Event
}.

Definition with_node (s : State) (n : Node) : State :=
  {| node := n; heap := heap s; trace := trace s |}.

Definition log (e : Event) (s : State) : State :=
  {| node := node s; heap := heap s; trace := trace s ++ [e] |}.

(** The platform.  [make(chan T, size)] faults when the buffer, the size
    times the size of an element, is more than the runtime can allocate
    (makechan: size out of range).  The largest size that passes this check
    depends on the platform and on the element: the two fields are the
    largest sizes for a channel of [term.Term] and for a channel of
    [term.Tuple]. *)
Class Runtime : Type := {
  chan_max_Term : Z;
  chan_max_Tuple : Z;
  chan_max_Term_nonneg : 0 <= chan_max_Term
}.

Section limits.

Context {platform : Runtime}.

(** [make(chan T, size)], for an element type with the largest size
    [limit]: a negative size and a size above the limit are run-time
    faults.  The exhaustion of memory below the limit is not modelled. *)
Definition make_chan (limit : Z) (size : Z) (h : list Chan)
  : result (chanref * list Chan) :=
  if (size <? 0) || (limit <? size) then Panic
  else Ok (Some (length h), h ++ [mkChan size []]).

(** How a function that ends in a send ends. *)
Inductive Status : Type :=
| Returned
| Waiting
| BlockedForever
| Panicked.

Global Instance Status_eq_dec : EqDecision Status.
Proof. solve_decision. Defined.

(** [c <- v].  A send on the nil channel blocks forever.  Otherwise the
    value joins the queue; the sender goes on at once when the buffer has
    room, and waits for the receiver when it has none.  A reference that
    points outside the store is not met in a well-formed state ([wf]). *)
Definition chan_send (c : chanref) (v : term.Term) (s : State) : Status * State :=
  match c with
  | None => (BlockedForever, s)
  | Some i =>
      match heap s !! i with
      | None => (Panicked, s)
      | Some ch =>
          (if has_room ch then Returned else Waiting,
           {| node := node s;
              heap := <[i := enqueue v ch]> (heap s);
              trace := trace s |})
      end
  end.

(** Indexing a Go map in the two-result form [v, ok = m[k]]. *)
Definition index_ok `{Countable K} {V : Type} (m : gmap K V) (zero : V) (k : K)
  : V * bool :=
  match m !! k with
  | Some v => (v, true)
  | None => (zero, false)
  end.

(** An order in which a [range] can visit the keys of a map. *)
Definition range_order `{Countable K} {V : Type} (order : list K) (m : gmap K V)
  : Prop :=
  order ≡ₚ (map_to_list m).*1.

(** ** Identity allocation and the process table *)

Definition allocatePid_body (id : Z) (k : term.Pid) : Z :=
  if id <=? term.Id k then uint32 (term.Id k + 1) else id.

Definition allocatePid (n : Node) (order : list term.Pid) : term.Pid :=
  let id := fold_left allocatePid_body order 0 in
  {| term.Node := FullName n;
     term.Id := id;
     term.Serial := 0;
     term.Creation := byte (Creation n) |}.

Definition storeProcess (chs : procChannels) (n : Node) (order : list term.Pid)
  : term.Pid * Node :=
  let pid := allocatePid n order in
  (pid, {| NodeInfo := NodeInfo n;
           Cookie := Cookie n;
           port := port n;
           channels := <[pid := chs]> (channels n);
           registered := registered n |}).

Definition Spawn (pd : Process) (args : list Value) (order : list term.Pid)
    (s : State) : result (term.Pid * State) :=
  let options := Behaviour pd in
  let '(chanSize, ok) := assert_int (options !! "chan-size"%string) in
  let chanSize := if ok then chanSize else 100 in
  let '(ctlChanSize, ok) := assert_int (options !! "chan-size"%string) in
  let chanSize := if ok then chanSize else 100 in
  '(c_in, h) ← make_chan chan_max_Term chanSize (heap s);
  '(c_inFrom, h) ← make_chan chan_max_Tuple chanSize h;
  '(c_ctl, h) ← make_chan chan_max_Term ctlChanSize h;
  let pcs := {| in_ := c_in; inFrom := c_inFrom; ctl := c_ctl |} in
  let '(pid, n) := storeProcess pcs (node s) order in
  Ok (pid, {| node := n;
              heap := h;
              trace := trace s ++ [EvGoProcessLoop pid pcs args] |}).

(** ** The name registry *)

Definition Register (name : term.Atom) (pid : term.Pid) (s : State) : State :=
  with_node s
    {| NodeInfo := NodeInfo (node s);
       Cookie := Cookie (node s);
       port := port (node s);
       channels := channels (node s);
       registered := <[name := pid]> (registered (node s)) |}.

(** The loop of [Registered]: [pids[i] = p; i++] for every key visited.  An
    index outside the slice is a run-time fault. *)
Fixpoint Registered_loop (order : list term.Atom) (i : nat)
    (pids : list term.Atom) : result (list term.Atom) :=
  match order with
  | [] => Ok pids
  | p :: rest =>
      if decide (i < length pids)%nat
      then Registered_loop rest (S i) (<[i := p]> pids)
      else Panic
  end.

Definition Registered (s : State) (order : list term.Atom)
  : result (list term.Atom) :=
  let pids := replicate (size (registered (node s))) EmptyString in
  Registered_loop order 0 pids.

Definition Whereis (s : State) (who : term.Atom) : term.Pid :=
  let '(pid, _) := index_ok (registered (node s)) term.zero who in
  pid.

(** ** Sending *)

Definition SendFrom (from : term.Term) (to : term.Pid) (message : term.Term)
    (s : State) : Status * State :=
  let '(pcs, _) := index_ok (channels (node s)) noChannels to in
  chan_send (inFrom pcs) (term.Tuple [from; message]) s.

Definition Send (to : term.Pid) (message : term.Term) (s : State)
  : Status * State :=
  let '(pcs, _) := index_ok (channels (node s)) noChannels to in
  chan_send (in_ pcs) message s.

Definition RegSend (from to message : term.Term) (s : State) : Status * State :=
  let toPid :=
    match to with
    | term.PidT tp => tp
    | term.AtomT tp => Whereis s tp
    | _ => term.zero
    end in
  SendFrom from toPid message s.

(** ** Dispatch of decoded frames, and publication

    The constants and the two support processes below are declared in files
    of the package that are not part of this development; they are taken as
    parameters. *)

Section node.

(** The opcode of a registered send. *)
Variable REG_SEND : Z.

(** The message id of the daemon's answer to a registration, and the
    parser of that answer: the creation stamp and whether it is valid. *)
Variable ALIVE2_RESP : Z.
Variable Read_ALIVE2_RESP : list Z -> Z * bool.

(** The descriptors of the two support processes. *)
Variable netKernel : Process.
Variable globalNameServer : Process.

Definition handleTerms (terms : list term.Term) (s : State) : Status * State :=
  match terms with
  | [] => (Returned, s)
  | term.Tuple t :: _ =>
      if (0 <? length t)%nat then
        match term.Element t 1 with
        | None => (Panicked, s)
        | Some (term.Int act) =>
            if act =? REG_SEND then
              if (length terms =? 2)%nat then
                match term.Element t 2, term.Element t 4, terms !! 1%nat with
                | Some from, Some to, Some message => RegSend from to message s
                | _, _, _ => (Panicked, s)
                end
              else (Returned, s)
            else (Returned, s)
        | Some _ => (Returned, s)
        end
      else (Returned, s)
  | _ :: _ => (Returned, s)
  end.

Definition prepareProcesses (o1 o2 : list term.Pid) (s : State) : result State :=
  '(nkPid, s) ← Spawn netKernel [VNode] o1 s;
  let s := Register "net_kernel" nkPid s in
  '(gnsPid, s) ← Spawn globalNameServer [VNode] o2 s;
  Ok (Register "global_name_server" gnsPid s).

(** One turn of the loop of [epmdC], on a reply read from the daemon: the
    value it sends to [Publish], if any.  [reply[0]] on an empty reply is a
    run-time fault. *)
Definition epmdC_reply (reply : list Z) : result (option Z) :=
  match reply with
  | [] => Panic
  | id :: _ =>
      if id =? ALIVE2_RESP then
        let '(creation, ok) := Read_ALIVE2_RESP reply in
        if ok then Ok (Some creation) else Ok (Some 99)
      else Ok None
  end.

(** [epmdC] once the daemon is connected and the request is written, up to
    the first value it sends: [Ok None] when the replies at hand produce
    none, and [Publish] goes on waiting. *)
Fixpoint epmdC (replies : list (list Z)) : result (option Z) :=
  match replies with
  | [] => Ok None
  | reply :: rest =>
      sent ← epmdC_reply reply;
      match sent with
      | Some v => Ok (Some v)
      | None => epmdC rest
      end
  end.

Inductive PublishError : Type :=
| ErrListen
| ErrDuplicateName (name : string)
| ErrCannotConnect.

Inductive PublishStatus : Type :=
| PReturns (err : option PublishError)
| PBlocked
| PPanicked.

Definition set_Port (p : Z) (s : State) : State :=
  let i := NodeInfo (node s) in
  log (EvSetPort p)
    (with_node s
       {| NodeInfo :=
            {| epmd.FullName := epmd.FullName i; epmd.Name := epmd.Name i;
               epmd.Domain := epmd.Domain i; epmd.Port := p;
               epmd.Type_ := epmd.Type_ i; epmd.Protocol := epmd.Protocol i;
               epmd.HighVsn := epmd.HighVsn i; epmd.LowVsn := epmd.LowVsn i;
               epmd.Creation := epmd.Creation i |};
          Cookie := Cookie (node s);
          port := port (node s);
          channels := channels (node s);
          registered := registered (node s) |}).

Definition set_Creation (c : Z) (s : State) : State :=
  let i := NodeInfo (node s) in
  log (EvSetCreation c)
    (with_node s
       {| NodeInfo :=
            {| epmd.FullName := epmd.FullName i; epmd.Name := epmd.Name i;
               epmd.Domain := epmd.Domain i; epmd.Port := epmd.Port i;
               epmd.Type_ := epmd.Type_ i; epmd.Protocol := epmd.Protocol i;
               epmd.HighVsn := epmd.HighVsn i; epmd.LowVsn := epmd.LowVsn i;
               epmd.Creation := c |};
          Cookie := Cookie (node s);
          port := port (node s);
          channels := channels (node s);
          registered := registered (node s) |}).

(** [Publish].  The outside is given as arguments: whether [net.Listen]
    binds the port, and the replies of the daemon that [epmdC] reads. *)
Definition Publish (port : Z) (listen_ok : bool) (replies : list (list Z))
    (o1 o2 : list term.Pid) (s : State) : PublishStatus * State :=
  if negb listen_ok then (PReturns (Some ErrListen), s)
  else
    let s := log (EvListen port) s in
    let s := set_Port (uint16 port) s in
    let s := log EvGoEpmdC s in
    match epmdC replies with
    | Panic => (PPanicked, s)
    | Ok None => (PBlocked, s)
    | Ok (Some creation) =>
        if creation =? 99 then
          (PReturns (Some (ErrDuplicateName (epmd.Name (NodeInfo (node s))))), s)
        else if creation =? 100 then
          (PReturns (Some ErrCannotConnect), s)
        else
          let s := set_Creation creation s in
          let s := log EvGoAccept s in
          match prepareProcesses o1 o2 s with
          | Panic => (PPanicked, s)
          | Ok s => (PReturns None, s)
          end
    end.

End node.

(** ** Reading the trace *)

Definition creation_writes (tr : list Event) : list Z :=
  omap (fun e => match e with EvSetCreation c => Some c | _ => None end) tr.

Definition accepting (tr : list Event) : bool :=
  existsb (fun e => match e with EvGoAccept => true | _ => false end) tr.

(** A fresh node: the state that [NewNode] starts from. *)
Definition boot (name cookie : string) : result State :=
  n ← NewNode name cookie;
  Ok {| node := n; heap := []; trace := [] |}.

(** The capacity of the channel behind a reference. *)
Definition cap_of (h : list Chan) (c : chanref) : option Z :=
  i ← c; cap <$> h !! i.

(** The size that the options of a process ask for: the integer under
    ["chan-size"], and 100 when the key is missing or holds no integer. *)
Definition chan_size (pd : Process) : Z :=
  match Behaviour pd !! "chan-size"%string with
  | Some (VInt z) => z
  | _ => 100
  end.

(** The size that the options of a process ask for is one that [make]
    accepts for the direct and for the attributed queue. *)
Definition fits (pd : Process) : Prop :=
  0 <= chan_size pd /\ chan_size pd <= chan_max_Term /\
  chan_size pd <= chan_max_Tuple.

(** [z] is the greatest id of the process table. *)
Definition is_max_id (m : gmap term.Pid procChannels) (z : Z) : Prop :=
  (exists k, is_Some (m !! k) /\ term.Id k = z) /\
  (forall k, is_Some (m !! k) -> term.Id k <= z).

(** The ids of the table are [uint32] values and the greatest such value is
    not among them. *)
Definition ids_below_max (m : gmap term.Pid procChannels) : Prop :=
  map_Forall (fun k _ => 0 <= term.Id k < 2 ^ 32 - 1) m.

(** ** Well-formed states

    What holds of every state that the operations of the node build from a
    fresh one: the node has a name, every identity of the process table was
    allocated under that name, and its three channels are live. *)

Definition live (h : list Chan) (c : chanref) : Prop :=
  match c with
  | Some i => (i < length h)%nat
  | None => False
  end.

Global Instance live_dec h c : Decision (live h c).
Proof. destruct c; simpl; apply _. Defined.

Definition entry_ok (name : string) (h : list Chan)
    (pid : term.Pid) (pcs : procChannels) : Prop :=
  term.Node pid = name /\ live h (in_ pcs) /\ live h (inFrom pcs) /\ live h (ctl pcs).

Definition wf (s : State) : Prop :=
  FullName (node s) <> EmptyString /\
  map_Forall (entry_ok (FullName (node s)) (heap s)) (channels (node s)).

Global Instance wf_dec s : Decision (wf s).
Proof. unfold wf, entry_ok. apply _. Defined.

(** The calls of the public interface that change the state.  A call that
    faults ends the program; the state is then the one it was called in. *)
Inductive Call : Type :=
| CallSpawn (pd : Process) (args : list Value) (order : list term.Pid)
| CallRegister (name : term.Atom) (pid : term.Pid)
| CallSend (to : term.Pid) (message : term.Term)
| CallSendFrom (from : term.Term) (to : term.Pid) (message : term.Term).

Definition call (c : Call) (s : State) : State :=
  match c with
  | CallSpawn pd args order =>
      match Spawn pd args order s with
      | Ok (_, s') => s'
      | Panic => s
      end
  | CallRegister name pid => Register name pid s
  | CallSend to message => (Send to message s).2
  | CallSendFrom from to message => (SendFrom from to message s).2
  end.

Definition run (calls : list Call) (s : State) : State :=
  foldl (fun s c => call c s) s calls.

(** The names that a sequence of calls passes to [Register]. *)
Definition registered_names (calls : list Call) : list term.Atom :=
  omap (fun c => match c with CallRegister name _ => Some name | _ => None end)
       calls.

(** ** The connection loop and the pump of the handshake *)

(** What [ReadMessage] hands to [mLoop]: a decoded frame, or an error. *)
Inductive Read : Type :=
| ReadFrame (terms : list term.Term)
| ReadError.

(** How far a run of [mLoop] gets on the reads at hand: the connection is
    closed after a read error; the loop is back in [ReadMessage] when the
    reads are used up; it waits in a send on a full queue, and what follows
    is up to the receiver; it is blocked for ever in a send; it faulted. *)
Inductive LoopStatus : Type :=
| LClosed
| LReading
| LWaiting
| LBlockedForever
| LPanicked.

(** What [conn.Read] returns to [epmdREADER]: the bytes read, and whether
    the read failed.  The reader passes the bytes on; after a failed read it
    passes the bytes, then an empty slice, and ends. *)
Fixpoint epmdREADER (reads : list (list Z * bool)) : list (list Z) :=
  match reads with
  | [] => []
  | (data, failed) :: rest =>
      if failed then [data; []] else data :: epmdREADER rest
  end.

(** [binary.BigEndian.PutUint16] on a slice of two bytes. *)
Definition PutUint16 (v : Z) : list Z := [byte (Z.shiftr v 8); byte v].

(** The buffer that [epmdWRITER] hands to [conn.Write] for one message. *)
Definition epmdWRITER_frame (data : list Z) : list Z :=
  PutUint16 (uint16 (Z.of_nat (length data))) ++ data.

(** [epmdWRITER] on the messages taken from [out], each with whether its
    write failed: the buffers written, and the empty slices sent to the
    channel of the replies, one for every failed write. *)
Fixpoint epmdWRITER (outs : list (list Z * bool)) : list (list Z) * list (list Z) :=
  match outs with
  | [] => ([], [])
  | (data, failed) :: rest =>
      let '(written, markers) := epmdWRITER rest in
      (epmdWRITER_frame data :: written,
       if failed then [] :: markers else markers)
  end.

Section runtime.

Variable REG_SEND : Z.
Variable ALIVE2_RESP : Z.
Variable Read_ALIVE2_RESP : list Z -> Z * bool.
Variable netKernel : Process.
Variable globalNameServer : Process.

Fixpoint mLoop (reads : list Read) (s : State) : LoopStatus * State :=
  match reads with
  | [] => (LReading, s)
  | ReadError :: _ => (LClosed, s)
  | ReadFrame terms :: rest =>
      match handleTerms REG_SEND terms s with
      | (Returned, s') => mLoop rest s'
      | (Waiting, s') => (LWaiting, s')
      | (BlockedForever, s') => (LBlockedForever, s')
      | (Panicked, s') => (LPanicked, s')
      end
  end.

(** Whether a message from the daemon is an answer to the registration. *)
Definition is_answer (reply : list Z) : bool :=
  match reply with
  | [] => false
  | id :: _ => id =? ALIVE2_RESP
  end.

(** Everything that changes the state of a node: the calls of the
    interface, the dispatch of a frame, and the publication. *)
Inductive Op : Type :=
| OpCall (c : Call)
| OpDispatch (terms : list term.Term)
| OpPublish (port : Z) (listen_ok : bool) (replies : list (list Z))
            (o1 o2 : list term.Pid).

Definition step (o : Op) (s : State) : State :=
  match o with
  | OpCall c => call c s
  | OpDispatch terms => (handleTerms REG_SEND terms s).2
  | OpPublish port listen_ok replies o1 o2 =>
      (Publish ALIVE2_RESP Read_ALIVE2_RESP netKernel globalNameServer
               port listen_ok replies o1 o2 s).2
  end.

Definition exec (ops : list Op) (s : State) : State :=
  foldl (fun s o => step o s) s ops.

End runtime.

(** ** Sequences of spawns and of sends *)

(** A request to spawn: the process, its arguments, and the order in which
    the allocation enumerates the process table. *)
Definition SpawnReq : Type := Process * list Value * list term.Pid.

Fixpoint spawn_all (reqs : list SpawnReq) (s : State)
  : result (list term.Pid * State) :=
  match reqs with
  | [] => Ok ([], s)
  | (pd, args, order) :: rest =>
      '(pid, s) ← Spawn pd args order s;
      '(pids, s) ← spawn_all rest s;
      Ok (pid :: pids, s)
  end.

(** Every request carries an order that enumerates the table it meets. *)
Fixpoint orders_valid (reqs : list SpawnReq) (s : State) : Prop :=
  match reqs with
  | [] => True
  | (pd, args, order) :: rest =>
      range_order order (channels (node s)) /\
      match Spawn pd args order s with
      | Ok (_, s') => orders_valid rest s'
      | Panic => True
      end
  end.

(** [Send] of the messages of a list, in order, by one caller: the caller
    goes on to the next message when a send returns, and stops at the first
    send that does not.  The statuses of the sends made, and the state. *)
Fixpoint send_all (to : term.Pid) (messages : list term.Term) (s : State)
  : list Status * State :=
  match messages with
  | [] => ([], s)
  | message :: rest =>
      let '(st, s1) := Send to message s in
      match st with
      | Returned => let '(sts, s2) := send_all to rest s1 in (st :: sts, s2)
      | _ => ([st], s1)
      end
  end.

(** The number of sends that a channel takes before a sender has to wait. *)
Definition room (ch : Chan) : nat :=
  Z.to_nat (cap ch - Z.of_nat (length (queue ch))).

(** The size of the control queue that the options of a process lead to:
    the integer under ["chan-size"], and 0 when the key is missing or holds
    no integer. *)
Definition ctl_size (pd : Process) : Z :=
  match Behaviour pd !! "chan-size"%string with
  | Some (VInt z) => z
  | _ => 0
  end.

(** The ids of the table are the first [k] naturals: all are below [k], and
    [k - 1] is among them when [k] is not 0. *)
Definition ids_fill (m : gmap term.Pid procChannels) (k : Z) : Prop :=
  map_Forall (fun key _ => 0 <= term.Id key < k) m /\
  (k = 0 \/ exists key, is_Some (m !! key) /\ term.Id key = k - 1).

(** ** The queues of the processes *)

(** The channel behind a reference. *)
Definition chan_at (s : State) (c : chanref) : option Chan :=
  i ← c; heap s !! i.

Definition refs (pcs : procChannels) : list chanref :=
  [in_ pcs; inFrom pcs; ctl pcs].

(** The three queues of an entry are three channels, and no channel belongs
    to two entries. *)
Definition separated (s : State) : Prop :=
  (forall pid pcs, channels (node s) !! pid = Some pcs -> NoDup (refs pcs)) /\
  (forall p1 p2 pcs1 pcs2 c,
     p1 <> p2 ->
     channels (node s) !! p1 = Some pcs1 ->
     channels (node s) !! p2 = Some pcs2 ->
     c ∈ refs pcs1 -> c ∉ refs pcs2).

(** From [s] to [s'] the node and the trace are kept, no channel is added
    or removed, and every queue keeps its capacity and what it held, with
    more behind it or not. *)
Definition grows (s s' : State) : Prop :=
  node s' = node s /\
  trace s' = trace s /\
  length (heap s') = length (heap s) /\
  forall i ch, heap s !! i = Some ch ->
    exists more, heap s' !! i = Some (mkChan (cap ch) (queue ch ++ more)).

(** The frame of a registered send to a name, as [ReadMessage] decodes it:
    the control tuple with the opcode, the sender, a term that the dispatch
    does not read and the name, and then the payload. *)
Definition reg_send_frame (REG_SEND : Z) (unused : term.Term)
    (name : term.Atom) (m : term.Term * term.Term) : Read :=
  ReadFrame [term.Tuple [term.Int REG_SEND; m.1; unused; term.AtomT name]; m.2].

End limits.

(** ** A node at work, for the examples

    A fresh node, a process that takes the default options, and the state
    after that process is spawned and registered as "echo".  The constants
    of the protocol are instantiated as the Erlang distribution has them:
    the opcode 6 for a registered send, the message id 121 for the answer of
    the daemon, whose second byte is 0 on success and is followed by the
    creation stamp, big-endian. *)

(** The limits of a platform of 64 bits whose heap has 48 bits of address:
    a channel header of 96 bytes, elements of 16 and of 24 bytes. *)
Definition demo_runtime : Runtime.
Proof.
  refine {| chan_max_Term := (2 ^ 48 - 96) / 16;
            chan_max_Tuple := (2 ^ 48 - 96) / 24 |}.
  by vm_compute.
Defined.

Section examples.

Local Existing Instance demo_runtime.

Definition fresh : State :=
  {| node :=
       {| NodeInfo :=
            epmd.mkNodeInfo "eclus@localhost" "eclus" "localhost" 0 77 0 5 5 0;
          Cookie := "secret";
          port := 0;
          channels := ∅;
          registered := ∅ |};
     heap := [];
     trace := [] |}.

Definition echo : Process := mkProcess ∅.

Definition pid0 : term.Pid := term.mkPid "eclus@localhost" 0 0 0.

Definition served : State :=
  run [CallSpawn echo [] []; CallRegister "echo" pid0] fresh.

Definition demo_REG_SEND : Z := 6.

Definition demo_ALIVE2_RESP : Z := 121.

Definition demo_Read_ALIVE2_RESP (reply : list Z) : Z * bool :=
  match reply with
  | _ :: 0 :: hi :: lo :: _ => (hi * 256 + lo, true)
  | _ => (0, false)
  end.

(** A peer, the control tuple of a registered send to a name, a payload. *)
Definition remote : term.Pid := term.mkPid "peer@remote" 3 0 1.

Definition reg_send_to (name : term.Atom) : list term.Term :=
  [term.Int demo_REG_SEND; term.PidT remote; term.AtomT ""; term.AtomT name].

Definition hello : term.Term := term.AtomT "hello".

(** "ghost" is registered for an identity that was never spawned. *)
Definition ghost : term.Pid := term.mkPid "eclus@localhost" 7 0 0.

Definition haunted : State := Register "ghost" ghost served.

(** A process table that holds the largest id. *)
Definition pid_max : term.Pid := term.mkPid "eclus@localhost" (2 ^ 32 - 1) 0 0.

Definition crowded : Node :=
  {| NodeInfo := NodeInfo (node fresh);
     Cookie := Cookie (node fresh);
     port := 0;
     channels :=
       <[pid_max := mkProcChannels (Some 3%nat) (Some 4%nat) (Some 5%nat)]>
         (<[pid0 := mkProcChannels (Some 0%nat) (Some 1%nat) (Some 2%nat)]> ∅);
     registered := ∅ |}.

(** A process whose options use the names of the specification. *)
Definition renamed : Process :=
  mkProcess (<["mailbox-size"%string := VInt 5]>
               (<["control-size"%string := VInt 7]> ∅)).

(** A session of calls that registers two names, one of them twice. *)
Definition session : list Call :=
  [CallSpawn echo [] []; CallRegister "echo" pid0; CallRegister "log" pid0;
   CallRegister "echo" ghost].

(** The answers of the daemon: stamp 2, a refusal, and stamp 99. *)
Definition answer_stamp_2 : list Z := [0; 0; 2].


(** A second process, and the node with the two of them. *)
Definition pid1 : term.Pid := term.mkPid "eclus@localhost" 1 0 0.

Definition paired : State :=
  run [CallSpawn echo [] []; CallSpawn echo [VNode] [pid0]] fresh.

Definition two_spawns : list SpawnReq :=
  [(echo, [], []); (echo, [VNode], [pid0])].

(** A process that asks for queues larger than the platform makes. *)
Definition greedy : Process :=
  mkProcess (<["chan-size"%string := VInt (2 ^ 62)]> ∅).

(** Three messages. *)
Definition letters : list term.Term := [hello; term.Int 1; term.Int 2].

(** Two messages with their senders. *)
Definition parcels : list (term.Term * term.Term) :=
  [(term.PidT remote, hello); (term.PidT remote, term.Int 1)].

(** The control tuples of a registered send to an identity, of one to a
    number, and one that is too short. *)
Definition reg_send_to_pid (pid : term.Pid) : list term.Term :=
  [term.Int demo_REG_SEND; term.PidT remote; term.AtomT ""; term.PidT pid].

Definition reg_send_to_number : list term.Term :=
  [term.Int demo_REG_SEND; term.PidT remote; term.AtomT ""; term.Int 5].

Definition reg_send_short : list term.Term :=
  [term.Int demo_REG_SEND; term.PidT remote].

(** A history of the node: a spawn, a registration and a dispatch. *)
Definition history : list Op :=
  [OpCall (CallSpawn echo [] []); OpCall (CallRegister "echo" pid0);
   OpCall (CallSpawn echo [VNode] [pid0]);
   OpDispatch [term.Tuple (reg_send_to "echo"); hello]].

Definition demo_exec (ops : list Op) : State :=
  exec demo_REG_SEND demo_ALIVE2_RESP demo_Read_ALIVE2_RESP echo echo ops fresh.

(** Reads from the daemon: four bytes of something else, then a failure. *)
Definition stray : list Z := [4; 5; 6; 7].

End examples.

(** * Properties *)

Section properties.

Context {platform : Runtime}.

(** ** [Split] and [NewNode] *)

Lemma Split_first (s : string) (sep : ascii) :
  Split s sep !! 0%nat = Some (before_first s sep).
Proof.
  induction s as [|c s IH]; simpl; [done|].
  destruct (Ascii.eqb c sep); [done|].
  destruct (Split s sep); simpl in *; congruence.
Qed.

Lemma Split_without (s : string) (sep : ascii) :
  contains s sep = false -> Split s sep = [s].
Proof.
  induction s as [|c s IH]; simpl; [done|].
  destruct (Ascii.eqb c sep); simpl; [done|].
  intros H. by rewrite (IH H).
Qed.

Lemma Split_second (s : string) (sep : ascii) :
  contains s sep = true ->
  Split s sep !! 1%nat = Some (before_first (after_first s sep) sep).
Proof.
  induction s as [|c s IH]; simpl; [done|].
  destruct (Ascii.eqb c sep); simpl.
  - intros _. apply Split_first.
  - intros H. specialize (IH H).
    destruct (Split s sep) as [|p ps]; simpl in *; congruence.
Qed.

(** C10, as the code has it.  [NewNode] faults exactly on the names without
    an '@'.  On every other name it returns a node with the name as its full
    name, the part before the first '@' as its short name, the part between
    the first '@' and the next one (the end of the name when there is no
    other) as its domain, port 0, creation stamp 0 and two empty tables. *)
Theorem NewNode_spec (name cookie : string) :
  NewNode name cookie =
  if contains name at_sign then
    Ok {| NodeInfo :=
            {| epmd.FullName := name;
               epmd.Name := before_first name at_sign;
               epmd.Domain := before_first (after_first name at_sign) at_sign;
               epmd.Port := 0;
               epmd.Type_ := 77;
               epmd.Protocol := 0;
               epmd.HighVsn := 5;
               epmd.LowVsn := 5;
               epmd.Creation := 0 |};
          Cookie := cookie;
          port := 0;
          channels := ∅;
          registered := ∅ |}
  else Panic.
Proof.
  unfold NewNode. rewrite Split_first.
  destruct (contains name at_sign) eqn:Hc.
  - by rewrite (Split_second _ _ Hc).
  - by rewrite (Split_without _ _ Hc).
Qed.

(** With a single '@' in the name the domain is all that follows it. *)
Lemma before_first_without (s : string) (sep : ascii) :
  contains s sep = false -> before_first s sep = s.
Proof.
  induction s as [|c s IH]; simpl; [done|].
  destruct (Ascii.eqb c sep); simpl; [done|].
  intros H. by rewrite (IH H).
Qed.

Lemma NewNode_single_at (name cookie : string) (n : Node) :
  contains (after_first name at_sign) at_sign = false ->
  NewNode name cookie = Ok n ->
  epmd.Domain (NodeInfo n) = after_first name at_sign.
Proof.
  intros Hone. unfold NewNode. rewrite Split_first.
  destruct (contains name at_sign) eqn:Hc.
  - rewrite (Split_second _ _ Hc). intros [= <-]. simpl.
    by apply before_first_without.
  - by rewrite (Split_without _ _ Hc).
Qed.

(** A node that [NewNode] returns has the name it was given, a name with an
    '@', and starts with the stamp 0 and with empty tables. *)
Lemma NewNode_Ok (name cookie : string) (n : Node) :
  NewNode name cookie = Ok n ->
  contains name at_sign = true /\
  FullName n = name /\
  Creation n = 0 /\
  channels n = ∅ /\
  registered n = ∅.
Proof.
  unfold NewNode. rewrite Split_first.
  destruct (contains name at_sign) eqn:Hc.
  - rewrite (Split_second _ _ Hc). by intros [= <-].
  - by rewrite (Split_without _ _ Hc).
Qed.

(** C10, as the claim words it, fails: the name "a@b@c" contains an '@', and
    the domain of its node is "b", not the part after the first '@'. *)
Lemma NewNode_domain_not_after_first :
  contains "a@b@c" at_sign = true /\
  exists n, NewNode "a@b@c" "secret" = Ok n /\
            epmd.Domain (NodeInfo n) = "b"%string /\
            after_first "a@b@c" at_sign = "b@c"%string /\
            epmd.Domain (NodeInfo n) <> after_first "a@b@c" at_sign.
Proof.
  split; [reflexivity|].
  eexists. split; [reflexivity|]. simpl. repeat split. discriminate.
Qed.

(** ** The name registry *)

Lemma Whereis_lookup (s : State) (who : term.Atom) :
  Whereis s who = default term.zero (registered (node s) !! who).
Proof.
  unfold Whereis, index_ok. by destruct (registered (node s) !! who).
Qed.

Lemma Register_lookup (s : State) (name who : term.Atom) (pid : term.Pid) :
  registered (node (Register name pid s)) !! who =
  if decide (name = who) then Some pid else registered (node s) !! who.
Proof. unfold Register; simpl. apply lookup_insert. Qed.

(** C5.  A registration overwrites: after [Register name id1] and then
    [Register name id2] the lookup that [Whereis] makes finds [id2], and
    [Whereis name] returns [id2]; and right after [Register name id] the
    lookup finds [id] and [Whereis name] returns [id]. *)
Theorem Register_last_write_wins (s : State) (name : term.Atom)
    (id id1 id2 : term.Pid) :
  let s2 := Register name id2 (Register name id1 s) in
  let s1 := Register name id s in
  index_ok (registered (node s2)) term.zero name = (id2, true) /\
  Whereis s2 name = id2 /\
  index_ok (registered (node s1)) term.zero name = (id, true) /\
  Whereis s1 name = id.
Proof.
  cbv zeta. unfold Whereis, index_ok.
  rewrite !Register_lookup, !decide_True by reflexivity.
  repeat split.
Qed.

(** C4, as the code has it.  For a name without a binding [Whereis] returns
    the zero-valued identity; the flag of the lookup is dropped.  The same
    identity comes back when the name is bound to the zero value, so the
    result does not tell the two apart. *)
Theorem Whereis_unbound_zero (s : State) (who : term.Atom) :
  registered (node s) !! who = None ->
  index_ok (registered (node s)) term.zero who = (term.zero, false) /\
  Whereis s who = term.zero /\
  Whereis (Register who term.zero s) who = Whereis s who.
Proof.
  intros Hnone. unfold Whereis, index_ok.
  rewrite Register_lookup, decide_True by done.
  by rewrite Hnone.
Qed.

(** ** Sending to an identity *)

Lemma chan_send_nil (v : term.Term) (s : State) :
  chan_send None v s = (BlockedForever, s).
Proof. done. Qed.

(** C3, as the code has it.  For an identity without an entry in the process
    table [Send] takes the zero value of the entry, whose direct queue is the
    nil channel, and the send blocks forever: nothing is returned, nothing is
    delivered and the state is as before. *)
Theorem Send_unknown_blocks (to : term.Pid) (message : term.Term) (s : State) :
  channels (node s) !! to = None ->
  Send to message s = (BlockedForever, s).
Proof.
  intros Hnone. unfold Send, index_ok. by rewrite Hnone.
Qed.

Lemma SendFrom_unknown_blocks (from : term.Term) (to : term.Pid)
    (message : term.Term) (s : State) :
  channels (node s) !! to = None ->
  SendFrom from to message s = (BlockedForever, s).
Proof.
  intros Hnone. unfold SendFrom, index_ok. by rewrite Hnone.
Qed.

(** ** Enumerating the registry *)

Lemma chan_send_node (c : chanref) (v : term.Term) (s : State) :
  node (chan_send c v s).2 = node s /\ trace (chan_send c v s).2 = trace s.
Proof.
  unfold chan_send. destruct c as [i|]; [|done].
  by destruct (heap s !! i).
Qed.

Lemma Send_node (to : term.Pid) (message : term.Term) (s : State) :
  node (Send to message s).2 = node s.
Proof.
  unfold Send. destruct (index_ok _ _ _) as [pcs ok]. apply chan_send_node.
Qed.

Lemma SendFrom_node (from : term.Term) (to : term.Pid) (message : term.Term)
    (s : State) :
  node (SendFrom from to message s).2 = node s.
Proof.
  unfold SendFrom. destruct (index_ok _ _ _) as [pcs ok]. apply chan_send_node.
Qed.

(** [Spawn] faults when the size that the options ask for is negative or
    above what [make] accepts; otherwise it returns, with three fresh
    channels at the end of the store, an entry for them under the allocated
    identity, and the loop of the process started on them. *)
Lemma Spawn_unfold (pd : Process) (args : list Value) (order : list term.Pid)
    (s : State) :
  Spawn pd args order s =
  if (chan_size pd <? 0) || (chan_max_Term <? chan_size pd)
     || (chan_max_Tuple <? chan_size pd)
  then Panic
  else
    let i := length (heap s) in
    let pcs := mkProcChannels (Some i) (Some (S i)) (Some (S (S i))) in
    let pid := allocatePid (node s) order in
    Ok (pid,
        {| node := (storeProcess pcs (node s) order).2;
           heap := heap s ++ [mkChan (chan_size pd) []; mkChan (chan_size pd) [];
                              mkChan (ctl_size pd) []];
           trace := trace s ++ [EvGoProcessLoop pid pcs args] |}).
Proof.
  pose proof chan_max_Term_nonneg as Hlimit.
  unfold chan_size, ctl_size, Spawn, make_chan, assert_int.
  destruct (Behaviour pd !! "chan-size"%string) as [[z|str|b|]|];
    repeat match goal with
           | |- context [(?a <? ?b)] => destruct (Z.ltb_spec a b); try lia
           end;
    simpl; try done;
    rewrite !length_app, <- !app_assoc; simpl;
    replace (length (heap s) + 1)%nat with (S (length (heap s))) by lia;
    by replace (S (length (heap s)) + 1)%nat with (S (S (length (heap s)))) by lia.
Qed.

Lemma Spawn_Ok (pd : Process) (args : list Value) (order : list term.Pid)
    (s s' : State) (pid : term.Pid) :
  Spawn pd args order s = Ok (pid, s') ->
  exists size csize : Z,
    let i := length (heap s) in
    let pcs := mkProcChannels (Some i) (Some (S i)) (Some (S (S i))) in
    0 <= size /\ 0 <= csize /\
    pid = allocatePid (node s) order /\
    heap s' = heap s ++ [mkChan size []; mkChan size []; mkChan csize []] /\
    NodeInfo (node s') = NodeInfo (node s) /\
    registered (node s') = registered (node s) /\
    channels (node s') = <[pid := pcs]> (channels (node s)) /\
    trace s' = trace s ++ [EvGoProcessLoop pid pcs args].
Proof.
  rewrite Spawn_unfold.
  destruct (Z.ltb_spec (chan_size pd) 0) as [|Hsize]; [done|].
  destruct (_ || _); [done|].
  intros [= <- <-]. exists (chan_size pd), (ctl_size pd). simpl.
  split_and!; try done.
  unfold chan_size, ctl_size in *.
  by destruct (Behaviour pd !! "chan-size"%string) as [[z|str|b|]|].
Qed.

Lemma call_registered (c : Call) (s : State) :
  registered (node (call c s)) =
  match c with
  | CallRegister name pid => <[name := pid]> (registered (node s))
  | _ => registered (node s)
  end.
Proof.
  destruct c as [pd args order|name pid|to message|from to message]; simpl.
  - destruct (Spawn pd args order s) as [[pid s']|] eqn:Hs; [|done].
    apply Spawn_Ok in Hs as (? & ? & H). simpl in H. tauto.
  - done.
  - by rewrite Send_node.
  - by rewrite SendFrom_node.
Qed.

Lemma run_registered (calls : list Call) (s : State) (a : term.Atom) :
  is_Some (registered (node (run calls s)) !! a) <->
  a ∈ registered_names calls \/ is_Some (registered (node s) !! a).
Proof.
  revert s. induction calls as [|c calls IH]; intros s; simpl.
  - rewrite elem_of_nil. tauto.
  - unfold run in *. simpl. rewrite IH, call_registered.
    destruct c as [pd args order|name pid|to message|from to message]; simpl;
      try tauto.
    rewrite elem_of_cons, lookup_insert.
    destruct (decide (name = a)) as [->|Hne].
    + split; [tauto|]. intros _. right. by eexists.
    + split; [tauto|]. intros [[?|?]|?]; [congruence|tauto|tauto].
Qed.

Lemma Registered_loop_fills (order : list term.Atom) (i : nat)
    (pids : list term.Atom) :
  (i + length order <= length pids)%nat ->
  Registered_loop order i pids =
  Ok (take i pids ++ order ++ drop (i + length order) pids).
Proof.
  revert i pids. induction order as [|p rest IH]; intros i pids Hlen; simpl.
  - rewrite Nat.add_0_r. by rewrite take_drop.
  - simpl in Hlen. rewrite decide_True by lia.
    rewrite IH by (rewrite length_insert; lia).
    f_equal.
    rewrite drop_insert_lt by lia.
    replace (S i + length rest)%nat with (i + S (length rest))%nat by lia.
    rewrite (take_S_r _ _ p) by (apply list_lookup_insert_eq; lia).
    rewrite take_insert_ge by lia.
    by rewrite <- app_assoc.
Qed.

Lemma range_order_length `{Countable K} {V : Type} (order : list K)
    (m : gmap K V) :
  range_order order m -> length order = size m.
Proof.
  unfold range_order. intros ->.
  by rewrite length_fmap, length_map_to_list.
Qed.

Lemma range_order_NoDup `{Countable K} {V : Type} (order : list K)
    (m : gmap K V) :
  range_order order m -> NoDup order.
Proof.
  unfold range_order. intros ->. apply NoDup_fst_map_to_list.
Qed.

Lemma range_order_elem `{Countable K} {V : Type} (order : list K)
    (m : gmap K V) (k : K) :
  range_order order m -> k ∈ order <-> is_Some (m !! k).
Proof.
  unfold range_order. intros ->.
  rewrite list_elem_of_fmap. split.
  - intros [[k' v] [-> Hin]]. apply elem_of_map_to_list in Hin. by eexists.
  - intros [v Hv]. exists (k, v). split; [done|]. by apply elem_of_map_to_list.
Qed.

Lemma Registered_order (s : State) (order : list term.Atom) :
  range_order order (registered (node s)) ->
  Registered s order = Ok order.
Proof.
  intros Hord. unfold Registered.
  pose proof (range_order_length _ _ Hord) as Hlen.
  rewrite Registered_loop_fills by (rewrite length_replicate; lia).
  rewrite take_0. simpl. rewrite drop_ge by (rewrite length_replicate; lia).
  by rewrite app_nil_r.
Qed.

(** A name that no call registered has no binding, and [Whereis] returns
    the zero value for it. *)
Lemma Whereis_never_registered (name cookie : string) (s0 : State)
    (calls : list Call) (who : term.Atom) :
  boot name cookie = Ok s0 ->
  who ∉ registered_names calls ->
  registered (node (run calls s0)) !! who = None /\
  Whereis (run calls s0) who = term.zero.
Proof.
  intros Hboot Hwho.
  assert (Hnone : registered (node (run calls s0)) !! who = None).
  { apply eq_None_not_Some. rewrite run_registered. intros [?|Hsome]; [done|].
    unfold boot in Hboot.
    destruct (NewNode name cookie) as [n|] eqn:Hn; [|done].
    apply NewNode_Ok in Hn as (_ & _ & _ & _ & Hreg).
    simpl in Hboot. injection Hboot as <-. simpl in Hsome.
    rewrite Hreg, lookup_empty in Hsome. by destruct Hsome. }
  split; [done|]. by rewrite Whereis_lookup, Hnone.
Qed.

(** C8.  After any sequence of calls on a fresh node, and for every order in
    which the registry can be enumerated, [Registered] returns a list without
    repetition whose members are exactly the names that the sequence passed
    to [Register]. *)
Theorem Registered_exactly_registered (name cookie : string) (s0 : State)
    (calls : list Call) (order : list term.Atom) :
  boot name cookie = Ok s0 ->
  range_order order (registered (node (run calls s0))) ->
  exists pids,
    Registered (run calls s0) order = Ok pids /\
    NoDup pids /\
    forall a, a ∈ pids <-> a ∈ registered_names calls.
Proof.
  intros Hboot Hord. exists order. split; [by apply Registered_order|].
  split; [by eapply range_order_NoDup|].
  intros a. rewrite (range_order_elem _ _ _ Hord), run_registered.
  unfold boot in Hboot.
  destruct (NewNode name cookie) as [n|] eqn:Hn; [|done].
  apply NewNode_Ok in Hn as (_ & _ & _ & _ & Hreg).
  simpl in Hboot. injection Hboot as <-. simpl.
  rewrite Hreg, lookup_empty. split; [|tauto].
  intros [?|[? ?]]; [done|discriminate].
Qed.

(** ** Identity allocation *)

Lemma allocatePid_loop (order : list term.Pid) (id0 : Z) :
  0 <= id0 ->
  (forall k, k ∈ order -> 0 <= term.Id k < 2 ^ 32 - 1) ->
  let id := fold_left allocatePid_body order id0 in
  id0 <= id /\
  (forall k, k ∈ order -> term.Id k < id) /\
  (id = id0 \/ exists k, k ∈ order /\ id = term.Id k + 1).
Proof.
  revert id0. induction order as [|k order IH]; intros id0 Hid0 Hbound; simpl.
  - split; [lia|]. split; [|by left]. intros k Hk. by apply elem_of_nil in Hk.
  - assert (Hk : 0 <= term.Id k < 2 ^ 32 - 1) by (apply Hbound; left).
    assert (Hstep : allocatePid_body id0 k = Z.max id0 (term.Id k + 1)).
    { unfold allocatePid_body, uint32.
      destruct (Z.leb_spec id0 (term.Id k)); [|lia].
      rewrite Z.mod_small; lia. }
    destruct (IH (allocatePid_body id0 k)) as (Hle & Hlt & Hex).
    { rewrite Hstep. lia. }
    { intros k' Hk'. apply Hbound. by right. }
    rewrite Hstep in *. split; [lia|]. split.
    + intros k' [->|Hk']%elem_of_cons; [lia|by apply Hlt].
    + destruct Hex as [Heq|(k' & Hk' & Heq)].
      * destruct (Z.max_spec id0 (term.Id k + 1)) as [[_ Hm]|[_ Hm]].
        -- right. exists k. split; [left|lia].
        -- left. lia.
      * right. exists k'. split; [by right|done].
Qed.

(** C2, as the code has it.  When the largest [uint32] is not an id of the
    process table, whatever the order of the enumeration, [allocatePid]
    returns an identity whose id is 0 for the empty table and one more than
    the greatest id of the table otherwise, whose serial is 0, and which is
    not in the table. *)
Theorem allocatePid_fresh (n : Node) (order : list term.Pid) :
  range_order order (channels n) ->
  ids_below_max (channels n) ->
  let pid := allocatePid n order in
  (channels n = ∅ /\ term.Id pid = 0 \/
   exists z, is_max_id (channels n) z /\ term.Id pid = z + 1) /\
  term.Serial pid = 0 /\
  channels n !! pid = None.
Proof.
  intros Hord Hbound. simpl.
  assert (Hin : forall k, k ∈ order -> 0 <= term.Id k < 2 ^ 32 - 1).
  { intros k [v Hk]%(range_order_elem _ _ _ Hord). exact (Hbound k v Hk). }
  destruct (allocatePid_loop order 0 ltac:(lia) Hin) as (_ & Hlt & Hex).
  split; [|split; [done|]].
  - destruct order as [|k0 order'] eqn:Horder.
    + left. split; [|done].
      apply map_size_empty_inv. by rewrite <- (range_order_length _ _ Hord).
    + right. rewrite <- Horder in *.
      assert (Hk0 : k0 ∈ order) by (rewrite Horder; left).
      destruct Hex as [Hz|(k & Hk & Heq)].
      { specialize (Hlt k0 Hk0). specialize (Hin k0 Hk0). lia. }
      exists (term.Id k). split; [|done]. split.
      * exists k. split; [|done]. by apply (range_order_elem _ _ _ Hord).
      * intros k' Hk'%(range_order_elem _ _ _ Hord).
        specialize (Hlt k' Hk'). lia.
  - destruct (channels n !! allocatePid n order) eqn:Hl; [|done].
    assert (Hp : allocatePid n order ∈ order).
    { apply (range_order_elem _ _ _ Hord). by eexists. }
    specialize (Hlt _ Hp). simpl in Hlt. lia.
Qed.

(** On a table that holds the largest [uint32] the addition wraps around. *)
Lemma allocatePid_body_wraps (id : Z) (k : term.Pid) :
  0 <= id < 2 ^ 32 ->
  term.Id k = 2 ^ 32 - 1 ->
  allocatePid_body id k = 0.
Proof.
  intros Hid Hk. unfold allocatePid_body, uint32. rewrite Hk.
  destruct (Z.leb_spec id (2 ^ 32 - 1)); [done|lia].
Qed.

(** ** Well-formedness is kept *)

Lemma boot_wf (name cookie : string) (s : State) :
  boot name cookie = Ok s -> wf s.
Proof.
  unfold boot. destruct (NewNode name cookie) as [n|] eqn:Hn; [|done].
  apply NewNode_Ok in Hn as (Hc & Hname & _ & Hch & _).
  simpl. intros [= <-]. split; simpl.
  - rewrite Hname. intros ->. discriminate.
  - rewrite Hch. apply map_Forall_empty.
Qed.

Lemma live_mono (h h' : list Chan) (c : chanref) :
  (length h <= length h')%nat -> live h c -> live h' c.
Proof. destruct c; simpl; [lia|done]. Qed.

Lemma entry_ok_mono (name : string) (h h' : list Chan) (pid : term.Pid)
    (pcs : procChannels) :
  (length h <= length h')%nat -> entry_ok name h pid pcs -> entry_ok name h' pid pcs.
Proof.
  intros Hlen (Hn & H1 & H2 & H3). repeat split; eauto using live_mono.
Qed.

Lemma Spawn_wf (pd : Process) (args : list Value) (order : list term.Pid)
    (s s' : State) (pid : term.Pid) :
  wf s -> Spawn pd args order s = Ok (pid, s') -> wf s'.
Proof.
  intros [Hname Hall] Hs.
  apply Spawn_Ok in Hs as (size & csize & Hs). simpl in Hs.
  destruct Hs as (_ & _ & Hpid & Hheap & Hinfo & _ & Hch & _).
  unfold wf, FullName in *. rewrite Hinfo, Hch, Hheap. split; [done|].
  apply map_Forall_insert_2.
  - subst pid. repeat split; simpl; rewrite length_app; simpl; lia.
  - eapply map_Forall_impl; [exact Hall|]. intros k pcs Hk.
    eapply entry_ok_mono; [|exact Hk]. rewrite length_app. lia.
Qed.

Lemma Register_wf (name : term.Atom) (pid : term.Pid) (s : State) :
  wf s -> wf (Register name pid s).
Proof. done. Qed.

Lemma chan_send_wf (c : chanref) (v : term.Term) (s : State) :
  wf s -> wf (chan_send c v s).2.
Proof.
  intros Hwf. unfold chan_send. destruct c as [i|]; [|done].
  destruct (heap s !! i) as [ch|]; [|done].
  destruct Hwf as [Hname Hall]. split; [done|]. simpl.
  eapply map_Forall_impl; [exact Hall|]. intros k pcs Hk.
  eapply entry_ok_mono; [|exact Hk]. by rewrite length_insert.
Qed.

Lemma call_wf (c : Call) (s : State) : wf s -> wf (call c s).
Proof.
  intros Hwf.
  destruct c as [pd args order|name pid|to message|from to message]; simpl.
  - destruct (Spawn pd args order s) as [[pid s']|] eqn:Hs; [|done].
    by eapply Spawn_wf.
  - by apply Register_wf.
  - unfold Send. destruct (index_ok _ _ _). by apply chan_send_wf.
  - unfold SendFrom. destruct (index_ok _ _ _). by apply chan_send_wf.
Qed.

Lemma run_wf (calls : list Call) (s : State) : wf s -> wf (run calls s).
Proof.
  revert s. induction calls as [|c calls IH]; intros s Hwf; [done|].
  apply IH. by apply call_wf.
Qed.

(** In a well-formed state the zero-valued identity has no entry, and an
    identity with an entry has a live attributed queue. *)
Lemma wf_zero_absent (s : State) :
  wf s -> channels (node s) !! term.zero = None.
Proof.
  intros [Hname Hall].
  destruct (channels (node s) !! term.zero) as [pcs|] eqn:Hz; [|done].
  destruct (Hall _ _ Hz) as [Hn _]. simpl in Hn. congruence.
Qed.

Lemma wf_inFrom (s : State) (pid : term.Pid) (pcs : procChannels) :
  wf s ->
  channels (node s) !! pid = Some pcs ->
  exists i ch, inFrom pcs = Some i /\ heap s !! i = Some ch.
Proof.
  intros [_ Hall] Hpid. destruct (Hall _ _ Hpid) as (_ & _ & Hlive & _).
  destruct (inFrom pcs) as [i|]; [|done]. simpl in Hlive.
  destruct (lookup_lt_is_Some_2 _ _ Hlive) as [ch Hch]. eauto.
Qed.

(** ** Dispatch *)

Lemma SendFrom_cases (from : term.Term) (to : term.Pid) (message : term.Term)
    (s : State) :
  (SendFrom from to message s).2 = s \/
  exists pcs i ch,
    channels (node s) !! to = Some pcs /\
    inFrom pcs = Some i /\
    heap s !! i = Some ch /\
    SendFrom from to message s =
    (if has_room ch then Returned else Waiting,
     mkState (node s)
             (<[i := enqueue (term.Tuple [from; message]) ch]> (heap s))
             (trace s)).
Proof.
  unfold SendFrom, index_ok.
  destruct (channels (node s) !! to) as [pcs|] eqn:Hto; [|by left].
  unfold chan_send. destruct (inFrom pcs) as [i|] eqn:Hi; [|by left].
  destruct (heap s !! i) as [ch|] eqn:Hch; [|by left].
  right. by exists pcs, i, ch.
Qed.

Section dispatch.

Variable REG_SEND : Z.

Lemma handleTerms_cases (terms : list term.Term) (s : State) :
  handleTerms REG_SEND terms s = (Returned, s) \/
  handleTerms REG_SEND terms s = (Panicked, s) \/
  exists t from to message,
    terms = [term.Tuple t; message] /\
    term.Element t 1 = Some (term.Int REG_SEND) /\
    term.Element t 2 = Some from /\
    term.Element t 4 = Some to /\
    handleTerms REG_SEND terms s = RegSend from to message s.
Proof.
  destruct terms as [|first rest]; [by left|].
  destruct first as [z|a|p|t|tag]; try (left; reflexivity).
  simpl. destruct (0 <? length t)%nat; [|by left].
  destruct (term.Element t 1) as [[act|a|p|t'|tag]|] eqn:Hop;
    try (left; reflexivity); [|by right; left].
  destruct (Z.eqb_spec act REG_SEND) as [->|Hact]; [|by left].
  destruct rest as [|message [|more rest]]; simpl; try (left; reflexivity).
  destruct (term.Element t 2) as [from|] eqn:Hfrom; [|by right; left].
  destruct (term.Element t 4) as [to|] eqn:Hto; [|by right; left].
  right; right. by exists t, from, to, message.
Qed.

(** C9.  Whatever the frame, [handleTerms] leaves the node, with its
    registry and its process table, as it was.  Either the whole state is
    as before, or the frame is a registered send of two terms and one
    value, the pair of its sender and its payload, has joined the
    attributed queue of an entry of the process table.  So an empty frame, a frame whose
    first term is not a tuple with the opcode of a registered send, and a
    registered send that is not made of two terms change nothing. *)
Theorem handleTerms_frame (terms : list term.Term) (s : State) :
  let s' := (handleTerms REG_SEND terms s).2 in
  node s' = node s /\
  registered (node s') = registered (node s) /\
  channels (node s') = channels (node s) /\
  trace s' = trace s /\
  (s' = s \/
   exists t from to message pid pcs i ch,
     terms = [term.Tuple t; message] /\
     term.Element t 1 = Some (term.Int REG_SEND) /\
     term.Element t 2 = Some from /\
     term.Element t 4 = Some to /\
     channels (node s) !! pid = Some pcs /\
     inFrom pcs = Some i /\
     heap s !! i = Some ch /\
     heap s' = <[i := enqueue (term.Tuple [from; message]) ch]> (heap s)).
Proof.
  simpl.
  destruct (handleTerms_cases terms s)
    as [->|[->|(t & from & to & message & Hterms & Hop & Hfrom & Hto & ->)]];
    simpl; try (by auto 6).
  unfold RegSend. set (toPid := match to with term.PidT tp => tp | _ => _ end).
  rewrite (SendFrom_node from toPid message s). split_and!; try done.
  - unfold SendFrom. destruct (index_ok _ _ _). apply chan_send_node.
  - destruct (SendFrom_cases from toPid message s)
      as [Hsame|(pcs & i & ch & Hpcs & Hi & Hch & Hsend)]; [by left|].
    right. exists t, from, to, message, toPid, pcs, i, ch. by rewrite Hsend.
Qed.

Lemma handleTerms_wf (terms : list term.Term) (s : State) :
  wf s -> wf (handleTerms REG_SEND terms s).2.
Proof.
  intros Hwf.
  destruct (handleTerms_cases terms s)
    as [->|[->|(t & from & to & message & _ & _ & _ & _ & ->)]]; try done.
  unfold RegSend, SendFrom. destruct (index_ok _ _ _). by apply chan_send_wf.
Qed.

(** C1, as the code has it.  Take a well-formed state and a frame of two
    terms whose first term is a tuple with the opcode of a registered send
    and with a name as its fourth element.  If the name is bound to an
    identity that has an entry in the process table, the pair of the
    sender and the payload joins the attributed queue of that identity;
    the dispatch returns when the buffer has room and waits for the
    receiver when it has none.  If the name is not bound, nothing is
    delivered and nothing faults: the dispatch blocks on the nil queue of
    the zero-valued identity. *)
Theorem RegSend_frame_delivery (s : State) (t : list term.Term)
    (name : term.Atom) (payload : term.Term) :
  wf s ->
  term.Element t 1 = Some (term.Int REG_SEND) ->
  term.Element t 4 = Some (term.AtomT name) ->
  exists from,
    term.Element t 2 = Some from /\
    (forall pid,
       registered (node s) !! name = Some pid ->
       is_Some (channels (node s) !! pid) ->
       exists pcs i ch,
         channels (node s) !! pid = Some pcs /\
         inFrom pcs = Some i /\
         heap s !! i = Some ch /\
         handleTerms REG_SEND [term.Tuple t; payload] s =
         (if has_room ch then Returned else Waiting,
          mkState (node s)
                  (<[i := enqueue (term.Tuple [from; payload]) ch]> (heap s))
                  (trace s))) /\
    (registered (node s) !! name = None ->
     handleTerms REG_SEND [term.Tuple t; payload] s = (BlockedForever, s)).
Proof.
  intros Hwf Hop Hto.
  assert (Hlen : (3 < length t)%nat).
  { unfold term.Element in Hto. by apply lookup_lt_Some in Hto. }
  destruct (lookup_lt_is_Some_2 t 1 ltac:(lia)) as [from Hfrom].
  exists from. split; [done|].
  assert (Hrun : handleTerms REG_SEND [term.Tuple t; payload] s =
                 SendFrom from (Whereis s name) payload s).
  { unfold handleTerms.
    replace (0 <? length t)%nat with true by (symmetry; apply Nat.ltb_lt; lia).
    rewrite Hop, Z.eqb_refl. simpl.
    unfold term.Element at 1 2. unfold term.Element in Hto.
    by rewrite Hfrom, Hto. }
  rewrite Hrun, Whereis_lookup. split.
  - intros pid -> [pcs Hpcs]. simpl.
    destruct (wf_inFrom _ _ _ Hwf Hpcs) as (i & ch & Hi & Hch).
    exists pcs, i, ch. split_and!; try done.
    unfold SendFrom, index_ok. rewrite Hpcs, Hi. simpl.
    unfold chan_send. by rewrite Hch.
  - intros ->. simpl. apply SendFrom_unknown_blocks. by apply wf_zero_absent.
Qed.

End dispatch.

(** ** Spawning *)

Lemma fits_check (pd : Process) :
  (chan_size pd <? 0) || (chan_max_Term <? chan_size pd)
  || (chan_max_Tuple <? chan_size pd) = false <-> fits pd.
Proof.
  unfold fits. rewrite !orb_false_iff, !Z.ltb_ge. tauto.
Qed.

Lemma Spawn_returns (pd : Process) (args : list Value) (order : list term.Pid)
    (s : State) :
  fits pd ->
  exists pid s', Spawn pd args order s = Ok (pid, s').
Proof.
  intros Hfits%fits_check. rewrite Spawn_unfold, Hfits. by eauto.
Qed.

Lemma Spawn_faults (pd : Process) (args : list Value) (order : list term.Pid)
    (s : State) :
  ~ fits pd -> Spawn pd args order s = Panic.
Proof.
  intros Hfits. rewrite Spawn_unfold.
  destruct (_ || _) eqn:Hc; [done|]. by apply fits_check in Hc.
Qed.

Lemma Spawn_caps (pd : Process) (args : list Value) (order : list term.Pid)
    (s s' : State) (pid : term.Pid) :
  Spawn pd args order s = Ok (pid, s') ->
  exists pcs,
    channels (node s') !! pid = Some pcs /\
    cap_of (heap s') (in_ pcs) = Some (chan_size pd) /\
    cap_of (heap s') (inFrom pcs) = Some (chan_size pd).
Proof.
  rewrite Spawn_unfold. destruct (_ || _); [done|].
  intros [= <- <-]. simpl. eexists.
  split; [apply lookup_insert_eq|]. simpl.
  rewrite !lookup_app_r by lia.
  rewrite Nat.sub_diag.
  by replace (S (length (heap s)) - length (heap s))%nat with 1%nat by lia.
Qed.

(** C6, as the code has it.  [Spawn] reads one option, ["chan-size"].  It
    faults when the option holds a negative integer, or an integer above
    the largest size for which the runtime makes the direct or the
    attributed queue.  Otherwise it returns, the identity it returns has an
    entry in the process table, and the direct and the attributed queue of
    the entry have the capacity that the option holds, and the capacity 100
    when the option is missing or holds no integer. *)
Theorem Spawn_queue_capacities (pd : Process) (args : list Value)
    (order : list term.Pid) (s : State) :
  let size :=
    match Behaviour pd !! "chan-size"%string with
    | Some (VInt z) => z
    | _ => 100
    end in
  if (size <? 0) || (chan_max_Term <? size) || (chan_max_Tuple <? size)
  then Spawn pd args order s = Panic
  else
    exists pid s' pcs,
      Spawn pd args order s = Ok (pid, s') /\
      channels (node s') !! pid = Some pcs /\
      cap_of (heap s') (in_ pcs) = Some size /\
      cap_of (heap s') (inFrom pcs) = Some size.
Proof.
  cbv zeta. fold (chan_size pd).
  destruct (_ || _) eqn:Hcheck.
  - apply Spawn_faults. intros Hfits%fits_check. congruence.
  - apply fits_check in Hcheck.
    destruct (Spawn_returns pd args order s Hcheck) as (pid & s' & Hs).
    destruct (Spawn_caps _ _ _ _ _ _ Hs) as (pcs & Hcaps).
    by exists pid, s', pcs.
Qed.

(** ** Publication *)

Lemma creation_writes_app (tr1 tr2 : list Event) :
  creation_writes (tr1 ++ tr2) = creation_writes tr1 ++ creation_writes tr2.
Proof. apply omap_app. Qed.

Lemma accepting_app (tr1 tr2 : list Event) :
  accepting (tr1 ++ tr2) = accepting tr1 || accepting tr2.
Proof. apply existsb_app. Qed.


Section handshake.

Variable ALIVE2_RESP : Z.
Variable Read_ALIVE2_RESP : list Z -> Z * bool.
Variable netKernel : Process.
Variable globalNameServer : Process.


Lemma prepareProcesses_wf (o1 o2 : list term.Pid) (s s' : State) :
  wf s ->
  prepareProcesses netKernel globalNameServer o1 o2 s = Ok s' ->
  wf s'.
Proof.
  intros Hwf. unfold prepareProcesses.
  destruct (Spawn netKernel [VNode] o1 s) as [[p1 s1]|] eqn:H1; [|done].
  simpl.
  destruct (Spawn globalNameServer [VNode] o2 (Register "net_kernel" p1 s1))
    as [[p2 s2]|] eqn:H2; [|done].
  simpl. intros [= <-]. apply Register_wf.
  eapply Spawn_wf; [|exact H2]. apply Register_wf. by eapply Spawn_wf.
Qed.

Lemma Publish_wf (port : Z) (listen_ok : bool) (replies : list (list Z))
    (o1 o2 : list term.Pid) (s : State) :
  wf s ->
  wf (Publish ALIVE2_RESP Read_ALIVE2_RESP netKernel globalNameServer
              port listen_ok replies o1 o2 s).2.
Proof.
  intros Hwf. unfold Publish. destruct listen_ok; [|done]. cbn [negb].
  destruct (epmdC _ _ replies) as [[c|]|]; try done.
  destruct (c =? 99); [done|]. destruct (c =? 100); [done|].
  match goal with
  | |- context [prepareProcesses _ _ _ _ ?s0] =>
      assert (Hwf0 : wf s0) by done;
      destruct (prepareProcesses netKernel globalNameServer o1 o2 s0)
        as [s'|] eqn:Hp
  end; [|done].
  by eapply prepareProcesses_wf.
Qed.

(** The first answer of the daemon decides what [epmdC] sends. *)
Lemma epmdC_first_answer (body : list Z) (rest : list (list Z)) :
  epmdC ALIVE2_RESP Read_ALIVE2_RESP ((ALIVE2_RESP :: body) :: rest) =
  Ok (Some (let '(creation, ok) := Read_ALIVE2_RESP (ALIVE2_RESP :: body) in
            if ok then creation else 99)).
Proof.
  simpl. rewrite Z.eqb_refl.
  by destruct (Read_ALIVE2_RESP (ALIVE2_RESP :: body)) as [c []].
Qed.


End handshake.

End properties.

(** ** The theorems at work *)

Section at_work.

Local Existing Instance demo_runtime.

Lemma boot_fresh : boot "eclus@localhost" "secret" = Ok fresh.
Proof. reflexivity. Qed.

Lemma served_wf : wf served.
Proof. apply (bool_decide_unpack _). by vm_compute. Qed.

Lemma served_echo : registered (node served) !! "echo"%string = Some pid0.
Proof. by vm_compute. Qed.

Lemma served_pid0 :
  channels (node served) !! pid0 =
  Some (mkProcChannels (Some 0%nat) (Some 1%nat) (Some 2%nat)).
Proof. by vm_compute. Qed.

(** C1, at work: a registered send to "echo" on the node that serves it. *)
Lemma RegSend_frame_delivery_witness :
  wf served /\
  term.Element (reg_send_to "echo") 1 = Some (term.Int demo_REG_SEND) /\
  term.Element (reg_send_to "echo") 4 = Some (term.AtomT "echo") /\
  exists from,
    term.Element (reg_send_to "echo") 2 = Some from /\
    (forall pid,
       registered (node served) !! "echo"%string = Some pid ->
       is_Some (channels (node served) !! pid) ->
       exists pcs i ch,
         channels (node served) !! pid = Some pcs /\
         inFrom pcs = Some i /\
         heap served !! i = Some ch /\
         handleTerms demo_REG_SEND [term.Tuple (reg_send_to "echo"); hello] served =
         (if has_room ch then Returned else Waiting,
          mkState (node served)
                  (<[i := enqueue (term.Tuple [from; hello]) ch]> (heap served))
                  (trace served))) /\
    (registered (node served) !! "echo"%string = None ->
     handleTerms demo_REG_SEND [term.Tuple (reg_send_to "echo"); hello] served =
     (BlockedForever, served)).
Proof.
  split; [apply (bool_decide_unpack _); by vm_compute|].
  split; [reflexivity|]. split; [reflexivity|].
  apply (RegSend_frame_delivery demo_REG_SEND served (reg_send_to "echo") "echo" hello).
  - apply (bool_decide_unpack _). by vm_compute.
  - reflexivity.
  - reflexivity.
Defined.

(** C1, as the claim words it, fails: "ghost" is bound in the registry, to an
    identity without an entry in the process table, and the dispatch of a
    registered send to "ghost" delivers nothing: it blocks forever and the
    state is as before. *)
Lemma RegSend_bound_name_not_delivered :
  registered (node haunted) !! "ghost"%string = Some ghost /\
  channels (node haunted) !! ghost = None /\
  handleTerms demo_REG_SEND [term.Tuple (reg_send_to "ghost"); hello] haunted =
  (BlockedForever, haunted).
Proof. by vm_compute. Qed.

(** C2, at work: the table of the serving node holds the id 0. *)
Lemma allocatePid_fresh_witness :
  range_order [pid0] (channels (node served)) /\
  ids_below_max (channels (node served)) /\
  let pid := allocatePid (node served) [pid0] in
  (channels (node served) = ∅ /\ term.Id pid = 0 \/
   exists z, is_max_id (channels (node served)) z /\ term.Id pid = z + 1) /\
  term.Serial pid = 0 /\
  channels (node served) !! pid = None.
Proof.
  assert (Hord : range_order [pid0] (channels (node served))).
  { unfold range_order. by vm_compute. }
  assert (Hids : ids_below_max (channels (node served))).
  { apply (bool_decide_unpack _). by vm_compute. }
  split; [exact Hord|]. split; [exact Hids|].
  exact (allocatePid_fresh (node served) [pid0] Hord Hids).
Defined.

(** C2, as the claim words it, fails on a table that holds the largest id:
    visiting the id 0 and then the id 4294967295, [allocatePid] returns the
    id 0, which is not one more than the greatest id, and the identity it
    returns is in the table. *)
Lemma allocatePid_wraps_onto_live_pid :
  range_order [pid0; pid_max] (channels crowded) /\
  is_max_id (channels crowded) 4294967295 /\
  allocatePid crowded [pid0; pid_max] = pid0 /\
  term.Id (allocatePid crowded [pid0; pid_max]) <> 4294967295 + 1 /\
  is_Some (channels crowded !! allocatePid crowded [pid0; pid_max]).
Proof.
  split.
  { unfold range_order. set (keys := (map_to_list _).*1).
    assert (Hl : keys = [pid0; pid_max] \/ keys = [pid_max; pid0])
      by (vm_compute; auto).
    destruct Hl as [->| ->]; [done|apply perm_swap]. }
  split.
  { split.
    - exists pid_max. split; [|done]. vm_compute. eauto.
    - intros k [pcs Hk]. unfold crowded in Hk. simpl in Hk.
      apply lookup_insert_Some in Hk as [[<- _]|[_ Hk]]; [done|].
      apply lookup_insert_Some in Hk as [[<- _]|[_ Hk]]; [done|].
      by rewrite lookup_empty in Hk. }
  split; [by vm_compute|]. split; [by vm_compute|]. vm_compute. eauto.
Qed.

(** C3, at work: the fresh node has no process. *)
Lemma Send_unknown_blocks_witness :
  channels (node fresh) !! pid0 = None /\
  Send pid0 hello fresh = (BlockedForever, fresh).
Proof.
  split; [reflexivity|].
  apply (Send_unknown_blocks pid0 hello fresh). reflexivity.
Defined.

(** C3, as the claim words it, fails: [ghost] has no entry in the process
    table of the serving node, and [Send] to it does block, forever. *)
Lemma Send_unknown_does_block :
  channels (node served) !! ghost = None /\
  (Send ghost hello served).1 = BlockedForever /\
  (Send ghost hello served).1 <> Returned.
Proof. by vm_compute. Qed.

(** C4, at work: nothing is registered on the fresh node. *)
Lemma Whereis_unbound_zero_witness :
  registered (node fresh) !! "nobody"%string = None /\
  index_ok (registered (node fresh)) term.zero "nobody"%string = (term.zero, false) /\
  Whereis fresh "nobody" = term.zero /\
  Whereis (Register "nobody" term.zero fresh) "nobody" = Whereis fresh "nobody".
Proof.
  split; [reflexivity|].
  apply (Whereis_unbound_zero fresh "nobody"). reflexivity.
Defined.

(** C4, as the claim words it, fails: "nobody" was never registered on the
    serving node, and [Whereis] returns the zero-valued identity for it, the
    very result that it returns for a name registered for that identity. *)
Lemma Whereis_unbound_returns_zero_value :
  registered (node served) !! "nobody"%string = None /\
  Whereis served "nobody" = term.zero /\
  registered (node (Register "nil" term.zero served)) !! "nil"%string
    = Some term.zero /\
  Whereis (Register "nil" term.zero served) "nil" = Whereis served "nobody".
Proof. by vm_compute. Qed.

(** C6, as the claim words it, fails.  With no option at all the control
    queue has the capacity 0; and the options "mailbox-size" and
    "control-size" are not read: the direct and the attributed queue keep
    the capacity 100 and the control queue the capacity 0. *)
Lemma Spawn_ignores_spec_options :
  (exists pid s' pcs,
     Spawn echo [] [] fresh = Ok (pid, s') /\
     channels (node s') !! pid = Some pcs /\
     cap_of (heap s') (in_ pcs) = Some 100 /\
     cap_of (heap s') (inFrom pcs) = Some 100 /\
     cap_of (heap s') (ctl pcs) = Some 0) /\
  (exists pid s' pcs,
     Spawn renamed [] [] fresh = Ok (pid, s') /\
     channels (node s') !! pid = Some pcs /\
     cap_of (heap s') (in_ pcs) = Some 100 /\
     cap_of (heap s') (inFrom pcs) = Some 100 /\
     cap_of (heap s') (ctl pcs) = Some 0).
Proof.
  split; do 3 eexists; (split; [by vm_compute|]); by vm_compute.
Qed.



(** C8, at work: a session that registers "echo" twice and "log" once. *)
Lemma Registered_exactly_registered_witness :
  boot "eclus@localhost" "secret" = Ok fresh /\
  range_order ["log"; "echo"]%string (registered (node (run session fresh))) /\
  exists pids,
    Registered (run session fresh) ["log"; "echo"]%string = Ok pids /\
    NoDup pids /\
    forall a, a ∈ pids <-> a ∈ registered_names session.
Proof.
  assert (Hord : range_order ["log"; "echo"]%string
                   (registered (node (run session fresh)))).
  { unfold range_order. set (keys := (map_to_list _).*1).
    assert (Hl : keys = ["log"; "echo"]%string \/ keys = ["echo"; "log"]%string)
      by (vm_compute; auto).
    destruct Hl as [->| ->]; [done|apply perm_swap]. }
  split; [reflexivity|]. split; [exact Hord|].
  exact (Registered_exactly_registered "eclus@localhost" "secret" fresh session
           ["log"; "echo"]%string eq_refl Hord).
Defined.

End at_work.

(** * More of the node *)

Section more.

Context {platform : Runtime}.

(** ** Allocation and spawning *)

Lemma allocatePid_above (n : Node) (order : list term.Pid) :
  range_order order (channels n) ->
  ids_below_max (channels n) ->
  forall k, is_Some (channels n !! k) -> term.Id k < term.Id (allocatePid n order).
Proof.
  intros Hord Hbound k Hk.
  assert (Hin : forall k, k ∈ order -> 0 <= term.Id k < 2 ^ 32 - 1).
  { intros k' [v Hk']%(range_order_elem _ _ _ Hord). exact (Hbound k' v Hk'). }
  destruct (allocatePid_loop order 0 ltac:(lia) Hin) as (_ & Hlt & _).
  apply Hlt. by apply (range_order_elem _ _ _ Hord).
Qed.

Lemma allocatePid_absent (n : Node) (order : list term.Pid) :
  range_order order (channels n) ->
  ids_below_max (channels n) ->
  channels n !! allocatePid n order = None.
Proof.
  intros Hord Hbound.
  destruct (channels n !! allocatePid n order) eqn:Hl; [|done].
  pose proof (allocatePid_above n order Hord Hbound (allocatePid n order)
                ltac:(by eexists)). lia.
Qed.

(** The id that [allocatePid] returns is 0 or the successor of an id of the
    table, whatever the order. *)
Lemma allocatePid_origin (n : Node) (order : list term.Pid) :
  range_order order (channels n) ->
  ids_below_max (channels n) ->
  term.Id (allocatePid n order) = 0 \/
  exists k, is_Some (channels n !! k) /\
            term.Id (allocatePid n order) = term.Id k + 1.
Proof.
  intros Hord Hbound.
  assert (Hin : forall k, k ∈ order -> 0 <= term.Id k < 2 ^ 32 - 1).
  { intros k' [v Hk']%(range_order_elem _ _ _ Hord). exact (Hbound k' v Hk'). }
  destruct (allocatePid_loop order 0 ltac:(lia) Hin) as (_ & _ & [H0|(k & Hk & He)]).
  - by left.
  - right. exists k. split; [|done]. by apply (range_order_elem _ _ _ Hord).
Qed.

(** X5.  The order of the enumeration does not matter to [allocatePid] as
    long as the largest [uint32] is not an id of the table: two orders give
    the same identity. *)
Theorem allocatePid_order_independent (n : Node) (order1 order2 : list term.Pid) :
  range_order order1 (channels n) ->
  range_order order2 (channels n) ->
  ids_below_max (channels n) ->
  allocatePid n order1 = allocatePid n order2.
Proof.
  intros H1 H2 Hbound.
  assert (Hid : term.Id (allocatePid n order1) = term.Id (allocatePid n order2));
    [|unfold allocatePid in *; simpl in *; by rewrite Hid].
  pose proof (allocatePid_above n order1 H1 Hbound) as Ha1.
  pose proof (allocatePid_above n order2 H2 Hbound) as Ha2.
  destruct (allocatePid_origin n order1 H1 Hbound) as [Hz1|(k1 & Hk1 & He1)];
    destruct (allocatePid_origin n order2 H2 Hbound) as [Hz2|(k2 & Hk2 & He2)].
  - congruence.
  - specialize (Ha1 k2 Hk2).
    destruct Hk2 as [v Hv]. pose proof (Hbound k2 v Hv) as Hb. simpl in Hb. lia.
  - specialize (Ha2 k1 Hk1).
    destruct Hk1 as [v Hv]. pose proof (Hbound k1 v Hv) as Hb. simpl in Hb. lia.
  - specialize (Ha1 k2 Hk2). specialize (Ha2 k1 Hk1). lia.
Qed.

(** X1.  A spawn adds one entry and touches nothing else of the tables.
    When the order enumerates the table, the largest [uint32] is not an id
    of it and the options ask for a size that [make] accepts, [Spawn] returns an
    identity that had no entry; the table afterwards is the table before
    with one entry more, under that identity; the entries that were there
    are kept; the registry is as before; and the loop of the process was
    started last, on the identity and the queues of the new entry and with
    the arguments of the caller. *)
Theorem Spawn_adds_one_entry (pd : Process) (args : list Value)
    (order : list term.Pid) (s : State) :
  range_order order (channels (node s)) ->
  ids_below_max (channels (node s)) ->
  fits pd ->
  exists pid s' pcs,
    Spawn pd args order s = Ok (pid, s') /\
    channels (node s) !! pid = None /\
    channels (node s') = <[pid := pcs]> (channels (node s)) /\
    size (channels (node s')) = S (size (channels (node s))) /\
    (forall p q, channels (node s) !! p = Some q ->
                 channels (node s') !! p = Some q) /\
    registered (node s') = registered (node s) /\
    last (trace s') = Some (EvGoProcessLoop pid pcs args).
Proof.
  intros Hord Hbound Hsize.
  destruct (Spawn_returns pd args order s Hsize) as (pid & s' & Hs).
  pose proof Hs as (size & csize & H)%Spawn_Ok. simpl in H.
  destruct H as (_ & _ & Hpid & _ & _ & Hreg & Hch & Htr).
  assert (Hnone : channels (node s) !! pid = None).
  { subst pid. by apply allocatePid_absent. }
  eexists pid, s', _. split_and!; try done.
  - rewrite Hch. by apply map_size_insert_None.
  - intros p q Hp. rewrite Hch, lookup_insert_ne; [done|]. congruence.
  - rewrite Htr. apply last_snoc.
Qed.

Lemma Spawn_heap (pd : Process) (args : list Value) (order : list term.Pid)
    (s s' : State) (pid : term.Pid) :
  Spawn pd args order s = Ok (pid, s') ->
  heap s' = heap s ++ [mkChan (chan_size pd) []; mkChan (chan_size pd) [];
                       mkChan (ctl_size pd) []] /\
  channels (node s') !! pid =
  Some (mkProcChannels (Some (length (heap s))) (Some (S (length (heap s))))
                       (Some (S (S (length (heap s)))))).
Proof.
  rewrite Spawn_unfold. destruct (_ || _); [done|].
  intros [= <- <-]. simpl. split; [done|apply lookup_insert_eq].
Qed.

(** X2.  The queues of a new process are new.  In a well-formed state, when
    the options ask for a size that [make] accepts, [Spawn] returns; the channels that
    were in the store are kept as they were; the three queues of the new
    entry are the three channels added at the end of the store, they are
    empty, and none of them is a queue of an entry that was in the table. *)
Theorem Spawn_fresh_queues (pd : Process) (args : list Value)
    (order : list term.Pid) (s : State) :
  wf s ->
  fits pd ->
  exists pid s' pcs,
    Spawn pd args order s = Ok (pid, s') /\
    channels (node s') !! pid = Some pcs /\
    (forall j ch, heap s !! j = Some ch -> heap s' !! j = Some ch) /\
    length (heap s') = (length (heap s) + 3)%nat /\
    NoDup (refs pcs) /\
    (forall c, c ∈ refs pcs ->
       chan_at s c = None /\ queue <$> chan_at s' c = Some []) /\
    (forall p q c, channels (node s) !! p = Some q -> c ∈ refs q -> c ∉ refs pcs).
Proof.
  intros [_ Hall] Hsize.
  destruct (Spawn_returns pd args order s Hsize) as (pid & s' & Hs).
  destruct (Spawn_heap _ _ _ _ _ _ Hs) as [Hheap Hpcs].
  set (i := length (heap s)) in *.
  eexists pid, s', _. split; [done|]. split; [exact Hpcs|].
  assert (Hin : forall c, c ∈ refs (mkProcChannels (Some i) (Some (S i)) (Some (S (S i)))) ->
                exists j, c = Some j /\ (i <= j < i + 3)%nat).
  { intros c Hc. unfold refs in Hc. simpl in Hc.
    rewrite !elem_of_cons, elem_of_nil in Hc.
    destruct Hc as [->|[->|[->|[]]]]; eexists; (split; [done|lia]). }
  split_and!.
  - intros j ch Hj. rewrite Hheap. by apply lookup_app_l_Some.
  - rewrite Hheap, length_app. done.
  - unfold refs. simpl. apply NoDup_cons. split.
    { rewrite !elem_of_cons, elem_of_nil. intros [H|[H|[]]]; injection H; lia. }
    apply NoDup_cons. split; [|apply NoDup_singleton].
    rewrite elem_of_cons, elem_of_nil. intros [H|[]]; injection H; lia.
  - intros c Hc. unfold refs in Hc. simpl in Hc.
    rewrite !elem_of_cons, elem_of_nil in Hc. unfold chan_at. rewrite Hheap.
    destruct Hc as [->|[->|[->|[]]]]; simpl;
      (split; [apply lookup_ge_None_2; lia|]);
      rewrite lookup_app_r by lia; fold i.
    + by rewrite Nat.sub_diag.
    + by replace (S i - i)%nat with 1%nat by lia.
    + by replace (S (S i) - i)%nat with 2%nat by lia.
  - intros p q c Hp Hc Hnew.
    destruct (Hin c Hnew) as (j & -> & Hj).
    destruct (Hall p q Hp) as (_ & H1 & H2 & H3).
    unfold refs in Hc. rewrite !elem_of_cons, elem_of_nil in Hc.
    destruct Hc as [Hc|[Hc|[Hc|[]]]]; rewrite <- Hc in *; simpl in *; lia.
Qed.

(** X3.  The capacity of the control queue.  When [Spawn] returns, the
    control queue of the new entry has the capacity that the option
    ["chan-size"] holds, and the capacity 0 when the option is missing or
    holds no integer. *)
Theorem Spawn_control_capacity (pd : Process) (args : list Value)
    (order : list term.Pid) (s : State) :
  fits pd ->
  exists pid s' pcs,
    Spawn pd args order s = Ok (pid, s') /\
    channels (node s') !! pid = Some pcs /\
    cap_of (heap s') (ctl pcs) =
    Some (match Behaviour pd !! "chan-size"%string with
          | Some (VInt z) => z
          | _ => 0
          end).
Proof.
  intros Hsize.
  destruct (Spawn_returns pd args order s Hsize) as (pid & s' & Hs).
  destruct (Spawn_heap _ _ _ _ _ _ Hs) as [Hheap Hpcs].
  eexists pid, s', _. split; [done|]. split; [exact Hpcs|].
  unfold cap_of. simpl. rewrite Hheap, lookup_app_r by lia.
  by replace (S (S (length (heap s))) - length (heap s))%nat with 2%nat by lia.
Qed.

Lemma Spawn_next_id (pd : Process) (args : list Value) (order : list term.Pid)
    (s s' : State) (pid : term.Pid) (k : Z) :
  ids_fill (channels (node s)) k ->
  0 <= k < 2 ^ 32 - 1 ->
  range_order order (channels (node s)) ->
  Spawn pd args order s = Ok (pid, s') ->
  term.Id pid = k /\
  ids_fill (channels (node s')) (k + 1) /\
  (forall p, is_Some (channels (node s) !! p) -> is_Some (channels (node s') !! p)) /\
  is_Some (channels (node s') !! pid).
Proof.
  intros [Hall Htop] Hk Hord Hs.
  assert (Hbound : ids_below_max (channels (node s))).
  { eapply map_Forall_impl; [exact Hall|]. simpl. intros; lia. }
  pose proof Hs as (size & csize & H)%Spawn_Ok. simpl in H.
  destruct H as (_ & _ & Hpid & _ & _ & _ & Hch & _).
  pose proof (allocatePid_above _ _ Hord Hbound) as Habove.
  pose proof (allocatePid_origin _ _ Hord Hbound) as Horigin.
  rewrite <- Hpid in Habove, Horigin.
  assert (Hid : term.Id pid = k).
  { destruct Htop as [->|(key & Hkey & Hlast)].
    - destruct Horigin as [Hz|(key & [v Hv] & _)]; [done|].
      pose proof (Hall key v Hv) as Hb. simpl in Hb. lia.
    - specialize (Habove key Hkey).
      destruct Horigin as [Hz|(key' & [v Hv] & Heq)]; [lia|].
      pose proof (Hall key' v Hv) as Hb. simpl in Hb. lia. }
  split; [done|]. rewrite Hch. split_and!.
  - split.
    + apply map_Forall_insert_2; [lia|].
      eapply map_Forall_impl; [exact Hall|]. simpl. intros; lia.
    + right. exists pid. rewrite lookup_insert_eq. split; [by eexists|lia].
  - intros p Hp. rewrite lookup_insert. by case_decide.
  - rewrite lookup_insert_eq. by eexists.
Qed.

Lemma spawn_all_fill (reqs : list SpawnReq) (s : State) (k : Z) :
  ids_fill (channels (node s)) k ->
  0 <= k ->
  k + Z.of_nat (length reqs) < 2 ^ 32 ->
  orders_valid reqs s ->
  Forall (fun r : SpawnReq => fits r.1.1) reqs ->
  exists pids s',
    spawn_all reqs s = Ok (pids, s') /\
    term.Id <$> pids = (fun j => k + Z.of_nat j) <$> seq 0 (length reqs) /\
    (forall p, is_Some (channels (node s) !! p) \/ p ∈ pids ->
               is_Some (channels (node s') !! p)).
Proof.
  revert s k. induction reqs as [|[[pd args] order] reqs IH];
    intros s k Hfill Hk Hlen Hvalid Hsizes.
  - exists [], s. split; [done|]. split; [done|].
    intros p [Hp|Hp]; [done|]. by apply elem_of_nil in Hp.
  - simpl in Hlen, Hvalid. destruct Hvalid as [Hord Hvalid].
    apply Forall_cons in Hsizes as [Hsize Hsizes]. simpl in Hsize.
    destruct (Spawn_returns pd args order s Hsize) as (pid & s1 & Hs).
    rewrite Hs in Hvalid.
    destruct (Spawn_next_id _ _ _ _ _ _ k Hfill ltac:(lia) Hord Hs)
      as (Hid & Hfill1 & Hkeep & Hnew).
    destruct (IH s1 (k + 1) Hfill1 ltac:(lia) ltac:(lia) Hvalid Hsizes)
      as (pids & s' & Hall & Hids & Hin).
    exists (pid :: pids), s'.
    split; [simpl; rewrite Hs; simpl; by rewrite Hall|]. split.
    + rewrite fmap_cons, Hids. cbn [length seq].
      rewrite fmap_cons, <- fmap_S_seq, <- list_fmap_compose.
      f_equal; [lia|]. apply list_fmap_ext. intros i j _. simpl. lia.
    + intros p [Hp|[->|Hp]%elem_of_cons]; apply Hin; auto.
Qed.

(** X4.  The identities of successive spawns.  On a fresh node, a sequence
    of fewer than 2^32 spawns, each with an order that enumerates the table
    it meets and with options that ask for a size that [make] accepts, returns; the
    ids it returns are 0, 1, 2, ... in the order of the spawns, so the
    identities are pairwise distinct; and every one of them has an entry in
    the table at the end. *)
Theorem spawn_all_ids (name cookie : string) (s0 : State) (reqs : list SpawnReq) :
  boot name cookie = Ok s0 ->
  orders_valid reqs s0 ->
  Forall (fun r : SpawnReq => fits r.1.1) reqs ->
  Z.of_nat (length reqs) < 2 ^ 32 ->
  exists pids s',
    spawn_all reqs s0 = Ok (pids, s') /\
    term.Id <$> pids = Z.of_nat <$> seq 0 (length reqs) /\
    NoDup pids /\
    (forall p, p ∈ pids -> is_Some (channels (node s') !! p)).
Proof.
  intros Hboot Hvalid Hsizes Hlen.
  assert (Hfill : ids_fill (channels (node s0)) 0).
  { unfold boot in Hboot.
    destruct (NewNode name cookie) as [n|] eqn:Hn; [|done].
    apply NewNode_Ok in Hn as (_ & _ & _ & Hch & _).
    simpl in Hboot. injection Hboot as <-. simpl. rewrite Hch.
    split; [apply map_Forall_empty|by left]. }
  destruct (spawn_all_fill reqs s0 0 Hfill ltac:(lia) ltac:(lia) Hvalid Hsizes)
    as (pids & s' & Hall & Hids & Hin).
  exists pids, s'. split; [done|].
  assert (Hids' : term.Id <$> pids = Z.of_nat <$> seq 0 (length reqs)).
  { rewrite Hids. apply list_fmap_ext. intros i j _. simpl. lia. }
  split; [done|]. split; [|by auto].
  apply (NoDup_fmap_1 term.Id). rewrite Hids'.
  apply NoDup_fmap_2; [apply _|apply NoDup_seq].
Qed.

(** ** Sending to a process *)

Lemma wf_in (s : State) (pid : term.Pid) (pcs : procChannels) :
  wf s ->
  channels (node s) !! pid = Some pcs ->
  exists i ch, in_ pcs = Some i /\ heap s !! i = Some ch.
Proof.
  intros [_ Hall] Hpid. destruct (Hall _ _ Hpid) as (_ & Hlive & _).
  destruct (in_ pcs) as [i|]; [|done]. simpl in Hlive.
  destruct (lookup_lt_is_Some_2 _ _ Hlive) as [ch Hch]. eauto.
Qed.

Lemma Send_known (to : term.Pid) (message : term.Term) (s : State)
    (pcs : procChannels) (i : nat) (ch : Chan) :
  channels (node s) !! to = Some pcs ->
  in_ pcs = Some i ->
  heap s !! i = Some ch ->
  Send to message s =
  (if has_room ch then Returned else Waiting,
   mkState (node s) (<[i := enqueue message ch]> (heap s)) (trace s)).
Proof.
  intros Hto Hi Hch. unfold Send, index_ok. rewrite Hto, Hi. simpl.
  unfold chan_send. by rewrite Hch.
Qed.

Lemma has_room_room (ch : Chan) : has_room ch = true <-> (0 < room ch)%nat.
Proof. unfold has_room, room. rewrite Z.ltb_lt. lia. Qed.

Lemma send_all_queue (to : term.Pid) (messages : list term.Term) (s : State)
    (pcs : procChannels) (i : nat) (ch : Chan) :
  channels (node s) !! to = Some pcs ->
  in_ pcs = Some i ->
  heap s !! i = Some ch ->
  send_all to messages s =
  (replicate (room ch `min` length messages) Returned
     ++ (if decide (room ch < length messages)%nat then [Waiting] else []),
   mkState (node s)
           (<[i := mkChan (cap ch) (queue ch ++ take (S (room ch)) messages)]>
              (heap s))
           (trace s)).
Proof.
  revert s ch. induction messages as [|m rest IH]; intros s ch Hto Hi Hch.
  - cbn [send_all length]. rewrite Nat.min_0_r, decide_False by lia.
    rewrite take_nil. simpl. rewrite ?app_nil_r.
    replace (mkChan (cap ch) (queue ch)) with ch by (by destruct ch).
    rewrite list_insert_id by done. by destruct s.
  - cbn [send_all]. rewrite (Send_known _ _ _ _ _ _ Hto Hi Hch).
    destruct (has_room ch) eqn:Hroom.
    + apply has_room_room in Hroom.
      assert (Hnext : room (enqueue m ch) = pred (room ch)).
      { unfold room, enqueue. simpl. rewrite length_app. simpl. lia. }
      rewrite (IH _ (enqueue m ch)); [|done|done|].
      * rewrite Hnext. simpl length.
        destruct (room ch) as [|r] eqn:Hr; [lia|]. simpl.
        rewrite list_insert_insert_eq, <- app_assoc. simpl.
        f_equal. f_equal.
        destruct (decide (r < length rest)%nat), (decide (S r < S (length rest))%nat);
          try done; lia.
      * simpl. apply list_lookup_insert_eq. by eapply lookup_lt_Some.
    + assert (Hzero : room ch = 0%nat).
      { destruct (room ch) eqn:Hr; [done|].
        assert (has_room ch = true) by (apply has_room_room; lia). congruence. }
      rewrite Hzero. simpl. done.
Qed.

(** X6.  The direct queue is first in, first out, and bounded.  In a
    well-formed state, for an identity with an entry, the sends of a
    sequence of messages by one caller return at once as long as the buffer
    of the direct queue has room; the first send that finds it full waits
    for the receiver, and the caller sends no more.  The messages sent are
    behind what the queue held, in the order of the sends, and no other
    channel, nor the node, nor the trace changes. *)
Theorem send_all_fifo (to : term.Pid) (messages : list term.Term) (s : State)
    (pcs : procChannels) :
  wf s ->
  channels (node s) !! to = Some pcs ->
  exists i ch,
    in_ pcs = Some i /\
    heap s !! i = Some ch /\
    send_all to messages s =
    (replicate (room ch `min` length messages) Returned
       ++ (if decide (room ch < length messages)%nat then [Waiting] else []),
     mkState (node s)
             (<[i := mkChan (cap ch) (queue ch ++ take (S (room ch)) messages)]>
                (heap s))
             (trace s)).
Proof.
  intros Hwf Hto. destruct (wf_in _ _ _ Hwf Hto) as (i & ch & Hi & Hch).
  exists i, ch. split; [done|]. split; [done|].
  by eapply send_all_queue.
Qed.

(** ** The invariant of the node *)

Lemma refs_live (s : State) (p : term.Pid) (q : procChannels) (c : chanref) :
  wf s ->
  channels (node s) !! p = Some q ->
  c ∈ refs q ->
  exists j, c = Some j /\ (j < length (heap s))%nat.
Proof.
  intros [_ Hall] Hp Hc. destruct (Hall p q Hp) as (_ & H1 & H2 & H3).
  unfold refs in Hc. rewrite !elem_of_cons, elem_of_nil in Hc.
  destruct Hc as [->|[->|[->|[]]]].
  - destruct (in_ q); [eauto|done].
  - destruct (inFrom q); [eauto|done].
  - destruct (ctl q); [eauto|done].
Qed.

Lemma refs_new (i : nat) (c : chanref) :
  c ∈ refs (mkProcChannels (Some i) (Some (S i)) (Some (S (S i)))) ->
  exists j, c = Some j /\ (i <= j)%nat.
Proof.
  unfold refs. simpl. rewrite !elem_of_cons, elem_of_nil.
  intros [->|[->|[->|[]]]]; eexists; (split; [done|lia]).
Qed.

Lemma refs_new_NoDup (i : nat) :
  NoDup (refs (mkProcChannels (Some i) (Some (S i)) (Some (S (S i))))).
Proof.
  unfold refs. simpl. apply NoDup_cons. split.
  { rewrite !elem_of_cons, elem_of_nil. intros [H|[H|[]]]; injection H; lia. }
  apply NoDup_cons. split; [|apply NoDup_singleton].
  rewrite elem_of_cons, elem_of_nil. intros [H|[]]; injection H; lia.
Qed.

Lemma separated_same_table (s s' : State) :
  channels (node s') = channels (node s) -> separated s -> separated s'.
Proof. unfold separated. by intros ->. Qed.

Lemma Spawn_separated (pd : Process) (args : list Value) (order : list term.Pid)
    (s s' : State) (pid : term.Pid) :
  wf s -> separated s -> Spawn pd args order s = Ok (pid, s') -> separated s'.
Proof.
  intros Hwf [Hown Hapart] Hs.
  pose proof Hs as (size & csize & H)%Spawn_Ok. simpl in H.
  destruct H as (_ & _ & _ & _ & _ & _ & Hch & _).
  set (new := mkProcChannels _ _ _) in Hch.
  assert (Hfar : forall p q c, channels (node s) !! p = Some q ->
                               c ∈ refs q -> c ∉ refs new).
  { intros p q c Hp Hc Hnew.
    destruct (refs_live _ _ _ _ Hwf Hp Hc) as (j & -> & Hj).
    destruct (refs_new _ _ Hnew) as (j' & [= <-] & Hj'). lia. }
  split.
  - intros p q. rewrite Hch. intros [[<- <-]|[_ Hp]]%lookup_insert_Some.
    + apply refs_new_NoDup.
    + by eapply Hown.
  - intros p1 p2 q1 q2 c Hne. rewrite Hch.
    intros [[<- <-]|[_ H1]]%lookup_insert_Some
           [[<- <-]|[_ H2]]%lookup_insert_Some Hc; try done.
    + intros Hc2. by eapply Hfar.
    + by eapply Hfar.
    + by eapply Hapart.
Qed.

Lemma boot_separated (name cookie : string) (s : State) :
  boot name cookie = Ok s -> separated s.
Proof.
  unfold boot. destruct (NewNode name cookie) as [n|] eqn:Hn; [|done].
  apply NewNode_Ok in Hn as (_ & _ & _ & Hch & _).
  simpl. intros [= <-]. unfold separated. simpl. rewrite Hch.
  split; intros *; rewrite ?lookup_empty; done.
Qed.

Lemma call_separated (c : Call) (s : State) :
  wf s -> separated s -> separated (call c s).
Proof.
  intros Hwf Hsep.
  destruct c as [pd args order|name pid|to message|from to message]; simpl.
  - destruct (Spawn pd args order s) as [[pid s']|] eqn:Hs; [|done].
    by eapply Spawn_separated.
  - done.
  - eapply separated_same_table; [|done]. by rewrite Send_node.
  - eapply separated_same_table; [|done]. by rewrite SendFrom_node.
Qed.

Section invariant.

Variable REG_SEND : Z.
Variable ALIVE2_RESP : Z.
Variable Read_ALIVE2_RESP : list Z -> Z * bool.
Variable netKernel : Process.
Variable globalNameServer : Process.

Lemma handleTerms_node (terms : list term.Term) (s : State) :
  node (handleTerms REG_SEND terms s).2 = node s /\
  trace (handleTerms REG_SEND terms s).2 = trace s.
Proof.
  destruct (handleTerms_cases REG_SEND terms s)
    as [->|[->|(t & from & to & message & _ & _ & _ & _ & ->)]]; try done.
  unfold RegSend, SendFrom. destruct (index_ok _ _ _). apply chan_send_node.
Qed.

Lemma prepareProcesses_separated (o1 o2 : list term.Pid) (s s' : State) :
  wf s -> separated s ->
  prepareProcesses netKernel globalNameServer o1 o2 s = Ok s' ->
  separated s'.
Proof.
  intros Hwf Hsep. unfold prepareProcesses.
  destruct (Spawn netKernel [VNode] o1 s) as [[p1 s1]|] eqn:H1; [|done].
  simpl.
  destruct (Spawn globalNameServer [VNode] o2 (Register "net_kernel" p1 s1))
    as [[p2 s2]|] eqn:H2; [|done].
  simpl. intros [= <-].
  eapply (separated_same_table s2); [done|].
  eapply Spawn_separated; [| |exact H2].
  - apply Register_wf. by eapply Spawn_wf.
  - eapply (separated_same_table s1); [done|]. by eapply Spawn_separated.
Qed.

Lemma Publish_separated (port : Z) (listen_ok : bool) (replies : list (list Z))
    (o1 o2 : list term.Pid) (s : State) :
  wf s -> separated s ->
  separated (Publish ALIVE2_RESP Read_ALIVE2_RESP netKernel globalNameServer
                     port listen_ok replies o1 o2 s).2.
Proof.
  intros Hwf Hsep. unfold Publish. destruct listen_ok; [|done]. cbn [negb].
  destruct (epmdC _ _ replies) as [[c|]|]; try done.
  destruct (c =? 99); [done|]. destruct (c =? 100); [done|].
  match goal with
  | |- context [prepareProcesses _ _ _ _ ?s0] =>
      assert (Hwf0 : wf s0) by done;
      assert (Hsep0 : separated s0) by done;
      destruct (prepareProcesses netKernel globalNameServer o1 o2 s0)
        as [s'|] eqn:Hp
  end; [|done].
  by eapply prepareProcesses_separated.
Qed.

Lemma step_inv (o : Op) (s : State) :
  wf s /\ separated s ->
  wf (step REG_SEND ALIVE2_RESP Read_ALIVE2_RESP netKernel globalNameServer o s) /\
  separated (step REG_SEND ALIVE2_RESP Read_ALIVE2_RESP netKernel globalNameServer o s).
Proof.
  intros [Hwf Hsep]. destruct o as [c|terms|port listen_ok replies o1 o2]; simpl.
  - split; [by apply call_wf|by apply call_separated].
  - split; [by apply handleTerms_wf|].
    eapply separated_same_table; [|done].
    by rewrite (proj1 (handleTerms_node terms s)).
  - split; [by apply Publish_wf|by apply Publish_separated].
Qed.

Lemma call_FullName (c : Call) (s : State) :
  FullName (node (call c s)) = FullName (node s).
Proof.
  destruct c as [pd args order|name pid|to message|from to message]; simpl.
  - destruct (Spawn pd args order s) as [[pid s']|] eqn:Hs; [|done].
    apply Spawn_Ok in Hs as (? & ? & H). simpl in H.
    destruct H as (_ & _ & _ & _ & Hinfo & _). unfold FullName. by rewrite Hinfo.
  - done.
  - by rewrite Send_node.
  - by rewrite SendFrom_node.
Qed.

Lemma prepareProcesses_FullName (o1 o2 : list term.Pid) (s s' : State) :
  prepareProcesses netKernel globalNameServer o1 o2 s = Ok s' ->
  FullName (node s') = FullName (node s).
Proof.
  unfold prepareProcesses.
  destruct (Spawn netKernel [VNode] o1 s) as [[p1 s1]|] eqn:H1; [|done].
  simpl.
  destruct (Spawn globalNameServer [VNode] o2 (Register "net_kernel" p1 s1))
    as [[p2 s2]|] eqn:H2; [|done].
  simpl. intros [= <-].
  apply Spawn_Ok in H1 as (? & ? & H1). simpl in H1.
  apply Spawn_Ok in H2 as (? & ? & H2). simpl in H2.
  destruct H1 as (_ & _ & _ & _ & Hi1 & _).
  destruct H2 as (_ & _ & _ & _ & Hi2 & _).
  unfold FullName. simpl. by rewrite Hi2, Hi1.
Qed.

Lemma Publish_FullName (port : Z) (listen_ok : bool) (replies : list (list Z))
    (o1 o2 : list term.Pid) (s : State) :
  FullName (node (Publish ALIVE2_RESP Read_ALIVE2_RESP netKernel
                          globalNameServer port listen_ok replies o1 o2 s).2)
  = FullName (node s).
Proof.
  unfold Publish. destruct listen_ok; [|done]. cbn [negb].
  destruct (epmdC _ _ replies) as [[c|]|]; try done.
  destruct (c =? 99); [done|]. destruct (c =? 100); [done|].
  match goal with
  | |- context [prepareProcesses _ _ _ _ ?s0] =>
      destruct (prepareProcesses netKernel globalNameServer o1 o2 s0)
        as [s'|] eqn:Hp
  end; [|done].
  simpl. by rewrite (prepareProcesses_FullName _ _ _ _ Hp).
Qed.

Lemma exec_inv (ops : list Op) (s : State) :
  wf s -> separated s ->
  let s' := exec REG_SEND ALIVE2_RESP Read_ALIVE2_RESP netKernel
                 globalNameServer ops s in
  wf s' /\ separated s' /\ FullName (node s') = FullName (node s).
Proof.
  revert s. induction ops as [|o ops IH]; intros s Hwf Hsep; [done|].
  destruct (step_inv o s (conj Hwf Hsep)) as [Hwf1 Hsep1].
  destruct (IH _ Hwf1 Hsep1) as (Hwf' & Hsep' & Hname).
  simpl in *. split_and!; try done. rewrite Hname.
  destruct o as [c|terms|port listen_ok replies o1 o2]; simpl.
  - apply call_FullName.
  - by rewrite (proj1 (handleTerms_node terms s)).
  - apply Publish_FullName.
Qed.

(** X8.  The invariant of the node.  In every state that a sequence of
    calls, dispatches and publications builds from a fresh node, every
    identity of the process table carries the name of the node, the three
    queues of its entry are three channels of the store, and no channel is
    a queue of two entries. *)
Theorem exec_invariant (name cookie : string) (s0 : State) (ops : list Op) :
  boot name cookie = Ok s0 ->
  let s := exec REG_SEND ALIVE2_RESP Read_ALIVE2_RESP netKernel globalNameServer
                ops s0 in
  (forall pid pcs,
     channels (node s) !! pid = Some pcs ->
     term.Node pid = name /\
     NoDup (refs pcs) /\
     forall c, c ∈ refs pcs -> is_Some (chan_at s c)) /\
  (forall p1 p2 pcs1 pcs2 c,
     p1 <> p2 ->
     channels (node s) !! p1 = Some pcs1 ->
     channels (node s) !! p2 = Some pcs2 ->
     c ∈ refs pcs1 -> c ∉ refs pcs2).
Proof.
  intros Hboot.
  destruct (exec_inv ops s0 (boot_wf _ _ _ Hboot) (boot_separated _ _ _ Hboot))
    as (Hwf & [Hown Hapart] & Hname).
  assert (Hn0 : FullName (node s0) = name).
  { unfold boot in Hboot.
    destruct (NewNode name cookie) as [n|] eqn:Hn; [|done].
    apply NewNode_Ok in Hn as (_ & Hfull & _).
    simpl in Hboot. by injection Hboot as <-. }
  cbv zeta. split; [|exact Hapart].
  intros pid pcs Hpid. split_and!.
  - destruct Hwf as [_ Hall]. destruct (Hall _ _ Hpid) as [Hnode _]. congruence.
  - by eapply Hown.
  - intros c Hc. destruct (refs_live _ _ _ _ Hwf Hpid Hc) as (j & -> & Hj).
    simpl. by apply lookup_lt_is_Some_2.
Qed.

Lemma SendFrom_known (from : term.Term) (to : term.Pid) (message : term.Term)
    (s : State) (pcs : procChannels) (i : nat) (ch : Chan) :
  channels (node s) !! to = Some pcs ->
  inFrom pcs = Some i ->
  heap s !! i = Some ch ->
  SendFrom from to message s =
  (if has_room ch then Returned else Waiting,
   mkState (node s)
           (<[i := enqueue (term.Tuple [from; message]) ch]> (heap s))
           (trace s)).
Proof.
  intros Hto Hi Hch. unfold SendFrom, index_ok. rewrite Hto, Hi. simpl.
  unfold chan_send. by rewrite Hch.
Qed.

Lemma chan_at_insert (n : Node) (h : list Chan) (tr : list Event) (i : nat)
    (x : Chan) (c : chanref) :
  c <> Some i ->
  chan_at (mkState n (<[i := x]> h) tr) c = chan_at (mkState n h tr) c.
Proof.
  intros Hc. destruct c as [j|]; [|done]. simpl.
  apply list_lookup_insert_ne. congruence.
Qed.

Lemma refs_distinct (pcs : procChannels) :
  NoDup (refs pcs) ->
  in_ pcs <> inFrom pcs /\ in_ pcs <> ctl pcs /\ inFrom pcs <> ctl pcs.
Proof.
  unfold refs. rewrite !NoDup_cons, !elem_of_cons, elem_of_nil.
  intros (H1 & H2 & _). split_and!; intros Heq; rewrite Heq in *; tauto.
Qed.

(** X9.  A send touches one queue.  In every state built from a fresh node,
    for an identity with an entry, [Send] puts the message at the back of
    the direct queue of the entry and [SendFrom] puts the pair of the sender
    and the message at the back of its attributed queue; the two other
    queues of the entry and the three queues of every other entry are as
    they were. *)
Theorem sends_touch_one_queue (name cookie : string) (s0 : State)
    (ops : list Op) (from : term.Term) (to : term.Pid) (message : term.Term)
    (pcs : procChannels) :
  boot name cookie = Ok s0 ->
  let s := exec REG_SEND ALIVE2_RESP Read_ALIVE2_RESP netKernel globalNameServer
                ops s0 in
  channels (node s) !! to = Some pcs ->
  let s1 := (Send to message s).2 in
  let s2 := (SendFrom from to message s).2 in
  exists ch_in ch_from,
    chan_at s (in_ pcs) = Some ch_in /\
    chan_at s (inFrom pcs) = Some ch_from /\
    chan_at s1 (in_ pcs) = Some (enqueue message ch_in) /\
    chan_at s1 (inFrom pcs) = chan_at s (inFrom pcs) /\
    chan_at s1 (ctl pcs) = chan_at s (ctl pcs) /\
    chan_at s2 (inFrom pcs) = Some (enqueue (term.Tuple [from; message]) ch_from) /\
    chan_at s2 (in_ pcs) = chan_at s (in_ pcs) /\
    chan_at s2 (ctl pcs) = chan_at s (ctl pcs) /\
    (forall p q c,
       p <> to -> channels (node s) !! p = Some q -> c ∈ refs q ->
       chan_at s1 c = chan_at s c /\ chan_at s2 c = chan_at s c).
Proof.
  intros Hboot.
  destruct (exec_inv ops s0 (boot_wf _ _ _ Hboot) (boot_separated _ _ _ Hboot))
    as (Hwf & [Hown Hapart] & _).
  cbv zeta. set (s := exec _ _ _ _ _ ops s0) in *. intros Hto.
  destruct (wf_in _ _ _ Hwf Hto) as (i & ch_in & Hi & Hchi).
  destruct (wf_inFrom _ _ _ Hwf Hto) as (k & ch_from & Hk & Hchk).
  destruct (refs_distinct _ (Hown _ _ Hto)) as (Hd1 & Hd2 & Hd3).
  exists ch_in, ch_from.
  rewrite (Send_known _ _ _ _ _ _ Hto Hi Hchi).
  rewrite (SendFrom_known _ _ _ _ _ _ _ Hto Hk Hchk). simpl.
  assert (Hs : s = mkState (node s) (heap s) (trace s)) by (by destruct s).
  rewrite Hs at 1 2 3 4 5 6 7. 
  split_and!.
  - by rewrite Hi.
  - by rewrite Hk.
  - rewrite Hi. simpl. apply list_lookup_insert_eq. by eapply lookup_lt_Some.
  - apply chan_at_insert. congruence.
  - apply chan_at_insert. congruence.
  - rewrite Hk. simpl. apply list_lookup_insert_eq. by eapply lookup_lt_Some.
  - apply chan_at_insert. congruence.
  - apply chan_at_insert. congruence.
  - intros p q c Hp Hq Hc.
    assert (Hnot : c ∉ refs pcs) by (by eapply (Hapart p to)).
    unfold refs in Hnot. rewrite !elem_of_cons, elem_of_nil in Hnot.
    rewrite Hs at 2 4.
    split; apply chan_at_insert; intros Heq; apply Hnot; rewrite Heq; auto.
Qed.

End invariant.

(** ** More of the dispatch *)

Lemma SendFrom_never_faults (from : term.Term) (to : term.Pid)
    (message : term.Term) (s : State) :
  wf s -> (SendFrom from to message s).1 <> Panicked.
Proof.
  intros Hwf.
  destruct (channels (node s) !! to) as [pcs|] eqn:Hto.
  - destruct (wf_inFrom _ _ _ Hwf Hto) as (i & ch & Hi & Hch).
    rewrite (SendFrom_known _ _ _ _ _ _ _ Hto Hi Hch). simpl.
    by destruct (has_room ch).
  - by rewrite SendFrom_unknown_blocks.
Qed.

Section dispatch_more.

Variable REG_SEND : Z.

Lemma handleTerms_reg_send (t : list term.Term) (from to payload : term.Term)
    (s : State) :
  term.Element t 1 = Some (term.Int REG_SEND) ->
  term.Element t 2 = Some from ->
  term.Element t 4 = Some to ->
  handleTerms REG_SEND [term.Tuple t; payload] s = RegSend from to payload s.
Proof.
  intros Hop Hfrom Hto. unfold handleTerms.
  assert (Hlen : (0 < length t)%nat).
  { unfold term.Element in Hop. apply lookup_lt_Some in Hop. lia. }
  replace (0 <? length t)%nat with true by (symmetry; by apply Nat.ltb_lt).
  rewrite Hop, Z.eqb_refl. simpl. by rewrite Hfrom, Hto.
Qed.

Lemma Element_4_2 (t : list term.Term) (to : term.Term) :
  term.Element t 4 = Some to -> exists from, term.Element t 2 = Some from.
Proof.
  unfold term.Element. intros Hto%lookup_lt_Some.
  apply lookup_lt_is_Some_2. lia.
Qed.

(** X10.  A registered send to an identity.  When the fourth element of the
    control tuple is an identity, the registry is not consulted: if the
    identity has an entry, the pair of the sender and the payload joins the
    attributed queue of the entry, and the dispatch returns or waits as the
    buffer has room or not; if it has none, the dispatch blocks forever and
    the state is as before. *)
Theorem handleTerms_pid_destination (s : State) (t : list term.Term)
    (pid : term.Pid) (payload : term.Term) :
  wf s ->
  term.Element t 1 = Some (term.Int REG_SEND) ->
  term.Element t 4 = Some (term.PidT pid) ->
  exists from,
    term.Element t 2 = Some from /\
    (forall pcs,
       channels (node s) !! pid = Some pcs ->
       exists i ch,
         inFrom pcs = Some i /\
         heap s !! i = Some ch /\
         handleTerms REG_SEND [term.Tuple t; payload] s =
         (if has_room ch then Returned else Waiting,
          mkState (node s)
                  (<[i := enqueue (term.Tuple [from; payload]) ch]> (heap s))
                  (trace s))) /\
    (channels (node s) !! pid = None ->
     handleTerms REG_SEND [term.Tuple t; payload] s = (BlockedForever, s)).
Proof.
  intros Hwf Hop Hto. destruct (Element_4_2 _ _ Hto) as [from Hfrom].
  exists from. split; [done|].
  rewrite (handleTerms_reg_send _ _ _ _ _ Hop Hfrom Hto). unfold RegSend.
  split.
  - intros pcs Hpcs. destruct (wf_inFrom _ _ _ Hwf Hpcs) as (i & ch & Hi & Hch).
    exists i, ch. split; [done|]. split; [done|]. by apply SendFrom_known with pcs.
  - apply SendFrom_unknown_blocks.
Qed.

(** X11.  A registered send to neither an identity nor a name.  When the
    fourth element of the control tuple is any other term, the destination
    is the zero-valued identity; in a well-formed state it has no entry, and
    the dispatch blocks forever with the state as before. *)
Theorem handleTerms_other_destination (s : State) (t : list term.Term)
    (to payload : term.Term) :
  wf s ->
  term.Element t 1 = Some (term.Int REG_SEND) ->
  term.Element t 4 = Some to ->
  (forall p, to <> term.PidT p) ->
  (forall a, to <> term.AtomT a) ->
  handleTerms REG_SEND [term.Tuple t; payload] s = (BlockedForever, s).
Proof.
  intros Hwf Hop Hto Hpid Hatom. destruct (Element_4_2 _ _ Hto) as [from Hfrom].
  rewrite (handleTerms_reg_send _ _ _ _ _ Hop Hfrom Hto). unfold RegSend.
  destruct to as [z|a|p|l|tag]; try (by destruct (Hatom a));
    try (by destruct (Hpid p));
    apply SendFrom_unknown_blocks; by apply wf_zero_absent.
Qed.

(** X12.  When the dispatch faults.  In a well-formed state [handleTerms]
    faults on the frames of two terms whose first term is a tuple with the
    opcode of a registered send and with fewer than four elements, and on no
    other frame. *)
Theorem handleTerms_faults_iff (terms : list term.Term) (s : State) :
  wf s ->
  (handleTerms REG_SEND terms s).1 = Panicked <->
  exists t message,
    terms = [term.Tuple t; message] /\
    term.Element t 1 = Some (term.Int REG_SEND) /\
    (length t < 4)%nat.
Proof.
  intros Hwf. split.
  - destruct terms as [|first rest]; [done|].
    destruct first as [z|a|p|t|tag]; try done.
    simpl. destruct (0 <? length t)%nat eqn:Hlen; [|done].
    apply Nat.ltb_lt in Hlen.
    destruct (term.Element t 1) as [[act|a|p|t'|tag]|] eqn:Hop; try done.
    + destruct (Z.eqb_spec act REG_SEND) as [->|Hact]; [|done].
      destruct rest as [|message [|more rest]]; simpl; try done.
      destruct (term.Element t 2) as [from|] eqn:Hfrom.
      * destruct (term.Element t 4) as [to|] eqn:Hto.
        -- intros Hp. exfalso. revert Hp. unfold RegSend.
           apply SendFrom_never_faults, Hwf.
        -- intros _. exists t, message. split_and!; try done.
           unfold term.Element in Hto. apply lookup_ge_None_1 in Hto. lia.
      * intros _. exists t, message. split_and!; try done.
        unfold term.Element in Hfrom. apply lookup_ge_None_1 in Hfrom. lia.
    + unfold term.Element in Hop. apply lookup_ge_None_1 in Hop. lia.
  - intros (t & message & -> & Hop & Hlen). unfold handleTerms.
    assert (Hpos : (0 < length t)%nat).
    { unfold term.Element in Hop. apply lookup_lt_Some in Hop. lia. }
    replace (0 <? length t)%nat with true by (symmetry; by apply Nat.ltb_lt).
    rewrite Hop, Z.eqb_refl. simpl.
    assert (Hto : term.Element t 4 = None).
    { unfold term.Element. apply lookup_ge_None_2. lia. }
    rewrite Hto. by destruct (term.Element t 2).
Qed.

End dispatch_more.

(** ** The connection loop *)

Lemma grows_refl (s : State) : grows s s.
Proof.
  split_and!; try done. intros i ch Hi. exists []. rewrite app_nil_r.
  by destruct ch.
Qed.

Lemma grows_trans (s1 s2 s3 : State) : grows s1 s2 -> grows s2 s3 -> grows s1 s3.
Proof.
  intros (Hn1 & Ht1 & Hl1 & Hq1) (Hn2 & Ht2 & Hl2 & Hq2).
  split_and!; try congruence.
  intros i ch Hi. destruct (Hq1 i ch Hi) as [more1 H1].
  destruct (Hq2 i _ H1) as [more2 H2]. simpl in H2.
  exists (more1 ++ more2). by rewrite app_assoc.
Qed.

Lemma SendFrom_grows (from : term.Term) (to : term.Pid) (message : term.Term)
    (s : State) :
  grows s (SendFrom from to message s).2.
Proof.
  destruct (SendFrom_cases from to message s)
    as [->|(pcs & i & ch & _ & _ & Hch & ->)]; [apply grows_refl|].
  simpl. split_and!; try done; simpl.
  - apply length_insert.
  - intros j chj Hj. destruct (decide (i = j)) as [<-|Hne].
    + exists [term.Tuple [from; message]].
      rewrite list_lookup_insert_eq by (by eapply lookup_lt_Some).
      unfold enqueue. congruence.
    + exists []. rewrite list_lookup_insert_ne by done.
      rewrite app_nil_r. by destruct chj.
Qed.

Section connection.

Variable REG_SEND : Z.

Lemma handleTerms_grows (terms : list term.Term) (s : State) :
  grows s (handleTerms REG_SEND terms s).2.
Proof.
  destruct (handleTerms_cases REG_SEND terms s)
    as [->|[->|(t & from & to & message & _ & _ & _ & _ & ->)]];
    try apply grows_refl.
  unfold RegSend. apply SendFrom_grows.
Qed.

(** X13.  What a connection cannot do.  Whatever a peer sends, and however
    far [mLoop] gets on it, the node, with its registry and its process
    table, is as before; no channel is added or removed; and every queue has
    the capacity it had and holds what it held, in the same order, with the
    deliveries of the loop behind it. *)
Theorem mLoop_only_enqueues (reads : list Read) (s : State) :
  let s' := (mLoop REG_SEND reads s).2 in
  registered (node s') = registered (node s) /\
  channels (node s') = channels (node s) /\
  NodeInfo (node s') = NodeInfo (node s) /\
  length (heap s') = length (heap s) /\
  forall i ch, heap s !! i = Some ch ->
    exists more, heap s' !! i = Some (mkChan (cap ch) (queue ch ++ more)).
Proof.
  cbv zeta.
  enough (Hg : grows s (mLoop REG_SEND reads s).2).
  { destruct Hg as (Hn & _ & Hl & Hq). by rewrite Hn. }
  revert s. induction reads as [|[terms|] reads IH]; intros s; simpl;
    try apply grows_refl.
  pose proof (handleTerms_grows terms s) as Hstep.
  destruct (handleTerms REG_SEND terms s) as [[] s1]; simpl in *; try done.
  eapply grows_trans; [exact Hstep|apply IH].
Qed.

Lemma handleTerms_to_name (unused : term.Term) (name : term.Atom)
    (m : term.Term * term.Term) (s : State) :
  handleTerms REG_SEND
    [term.Tuple [term.Int REG_SEND; m.1; unused; term.AtomT name]; m.2] s =
  SendFrom m.1 (Whereis s name) m.2 s.
Proof. by rewrite (handleTerms_reg_send REG_SEND _ m.1 (term.AtomT name)). Qed.

(** X14.  Deliveries keep the order of arrival.  Let a name be bound to an
    identity whose attributed queue has room for a sequence of messages.
    [mLoop], reading the registered sends of these messages to the name and
    then an error, puts the pairs of sender and payload at the back of that
    queue in the order of the frames, changes nothing else, and closes the
    connection. *)
Theorem mLoop_delivers_in_order (unused : term.Term) (name : term.Atom)
    (msgs : list (term.Term * term.Term)) (rest : list Read) (s : State)
    (pid : term.Pid) (pcs : procChannels) (i : nat) (ch : Chan) :
  registered (node s) !! name = Some pid ->
  channels (node s) !! pid = Some pcs ->
  inFrom pcs = Some i ->
  heap s !! i = Some ch ->
  Z.of_nat (length (queue ch) + length msgs) <= cap ch ->
  mLoop REG_SEND (map (reg_send_frame REG_SEND unused name) msgs
                    ++ ReadError :: rest) s =
  (LClosed,
   mkState (node s)
           (<[i := mkChan (cap ch)
                    (queue ch ++ map (fun m => term.Tuple [m.1; m.2]) msgs)]>
              (heap s))
           (trace s)).
Proof.
  intros Hname Hpid Hi. revert s ch Hname Hpid.
  induction msgs as [|m msgs IH]; intros s ch Hname Hpid Hch Hroom.
  - simpl. rewrite app_nil_r.
    replace (mkChan (cap ch) (queue ch)) with ch by (by destruct ch).
    rewrite list_insert_id by done. by destruct s.
  - cbn [map app mLoop reg_send_frame]. rewrite handleTerms_to_name.
    rewrite Whereis_lookup, Hname. simpl.
    rewrite (SendFrom_known _ _ _ _ _ _ _ Hpid Hi Hch).
    assert (Hhas : has_room ch = true).
    { unfold has_room. apply Z.ltb_lt. simpl in Hroom. lia. }
    rewrite Hhas.
    rewrite (IH _ (enqueue (term.Tuple [m.1; m.2]) ch)); try done.
    + simpl. by rewrite list_insert_insert_eq, <- app_assoc.
    + simpl. apply list_lookup_insert_eq. by eapply lookup_lt_Some.
    + simpl. rewrite length_app. simpl in *. lia.
Qed.

(** X15.  A registered send to an unbound name ends the service of the
    connection.  In a well-formed state, when [mLoop] reads a registered
    send to a name without a binding, it blocks forever in the dispatch of
    that frame: the state is as before, no frame that follows is dispatched
    and the connection is never closed. *)
Theorem mLoop_hangs_on_unbound_name (unused : term.Term) (name : term.Atom)
    (m : term.Term * term.Term) (rest : list Read) (s : State) :
  wf s ->
  registered (node s) !! name = None ->
  mLoop REG_SEND (reg_send_frame REG_SEND unused name m :: rest) s =
  (LBlockedForever, s).
Proof.
  intros Hwf Hname. cbn [mLoop reg_send_frame]. rewrite handleTerms_to_name.
  rewrite Whereis_lookup, Hname. simpl.
  by rewrite (SendFrom_unknown_blocks _ _ _ _ (wf_zero_absent _ Hwf)).
Qed.

End connection.

(** ** The pump of the handshake *)

(** X16.  The framing of the writer.  The buffer that [epmdWRITER] writes
    for a message is two bytes followed by the message as it is; the two
    bytes are the length of the message modulo 65536, the high byte first,
    so they give the length itself for a message shorter than 65536 bytes.
    Every message taken from [out] is written so, in order, and one empty
    slice goes to the channel of the replies for every write that failed. *)
Theorem epmdWRITER_frames (outs : list (list Z * bool)) :
  let '(written, markers) := epmdWRITER outs in
  Forall2 (fun (w : list Z) (o : list Z * bool) =>
             exists hi lo,
               w = hi :: lo :: o.1 /\
               0 <= hi < 256 /\ 0 <= lo < 256 /\
               hi * 256 + lo = Z.of_nat (length o.1) mod 65536 /\
               (Z.of_nat (length o.1) < 65536 ->
                hi * 256 + lo = Z.of_nat (length o.1)))
          written outs /\
  markers = (fun _ => []) <$> filter (fun o : list Z * bool => o.2 = true) outs.
Proof.
  induction outs as [|[data failed] outs IH]; simpl.
  - split; [constructor|done].
  - destruct (epmdWRITER outs) as [written markers]. destruct IH as [IHw IHm].
    split.
    + constructor; [|done].
      unfold epmdWRITER_frame, PutUint16, uint16, byte. simpl.
      set (n := Z.of_nat (length data) mod 2 ^ 16).
      assert (Hn : 0 <= n < 65536) by (apply Z.mod_pos_bound; lia).
      rewrite Z.shiftr_div_pow2 by lia.
      change (2 ^ 8) with 256. change (2 ^ 16) with 65536 in *.
      assert (Hhi : 0 <= n / 256 < 256).
      { split; [apply Z.div_pos; lia|apply Z.div_lt_upper_bound; lia]. }
      exists ((n / 256) mod 256), (n mod 256).
      rewrite (Z.mod_small (n / 256)) by lia.
      pose proof (Z.mod_pos_bound n 256 ltac:(lia)) as Hlo.
      pose proof (Z.div_mod n 256 ltac:(lia)) as Hdm.
      split_and!; try done; try lia.
      intros Hshort. subst n. rewrite Z.mod_small in Hdm |- * by lia. lia.
    + rewrite filter_cons. simpl. subst markers.
      destruct failed; [by rewrite decide_True|by rewrite decide_False].
Qed.

Section pump.

Variable ALIVE2_RESP : Z.
Variable Read_ALIVE2_RESP : list Z -> Z * bool.
Variable netKernel : Process.
Variable globalNameServer : Process.

Lemma epmdC_skips (ignored rest : list (list Z)) :
  Forall (fun r => r <> [] /\ is_answer ALIVE2_RESP r = false) ignored ->
  epmdC ALIVE2_RESP Read_ALIVE2_RESP (ignored ++ rest) =
  epmdC ALIVE2_RESP Read_ALIVE2_RESP rest.
Proof.
  induction 1 as [|r ignored [Hne Hr] _ IH]; [done|].
  destruct r as [|id r]; [done|]. simpl in *. by rewrite Hr.
Qed.

Lemma epmdC_lost (chunks : list (list Z)) (rest : list (list Z)) :
  Forall (fun r => is_answer ALIVE2_RESP r = false) chunks ->
  epmdC ALIVE2_RESP Read_ALIVE2_RESP (chunks ++ [] :: rest) = Panic.
Proof.
  induction 1 as [|r chunks Hr _ IH]; [done|].
  destruct r as [|id r]; [done|]. simpl in *. by rewrite Hr.
Qed.

Lemma epmdREADER_until_failure (oks : list (list Z * bool)) (d : list Z)
    (more : list (list Z * bool)) :
  Forall (fun r : list Z * bool => r.2 = false) oks ->
  epmdREADER (oks ++ (d, true) :: more) = oks.*1 ++ [d; []].
Proof.
  induction 1 as [|[data failed] oks Hr _ IH]; [done|].
  simpl in Hr. subst failed. simpl. by rewrite IH.
Qed.

(** X17.  A connection to the daemon that is lost before the answer.  When
    a read from the daemon fails and neither the bytes of that read nor
    those of a read before it begin an answer to the registration, [epmdC]
    faults on the empty slice that the reader sends after the failure, so
    that [Publish] faults and returns no error to its caller. *)
Theorem Publish_faults_on_lost_connection (oks : list (list Z * bool))
    (d : list Z) (more : list (list Z * bool)) (port : Z)
    (o1 o2 : list term.Pid) (s : State) :
  Forall (fun r : list Z * bool =>
            r.2 = false /\ is_answer ALIVE2_RESP r.1 = false) oks ->
  is_answer ALIVE2_RESP d = false ->
  let replies := epmdREADER (oks ++ (d, true) :: more) in
  epmdC ALIVE2_RESP Read_ALIVE2_RESP replies = Panic /\
  (Publish ALIVE2_RESP Read_ALIVE2_RESP netKernel globalNameServer
           port true replies o1 o2 s).1 = PPanicked.
Proof.
  intros Hoks Hd. cbv zeta.
  assert (Hc : epmdC ALIVE2_RESP Read_ALIVE2_RESP
                 (epmdREADER (oks ++ (d, true) :: more)) = Panic).
  { rewrite epmdREADER_until_failure
      by (eapply Forall_impl; [exact Hoks|]; by intros ? []).
    replace (oks.*1 ++ [d; []]) with ((oks.*1 ++ [d]) ++ [[]])
      by (by rewrite <- app_assoc).
    apply epmdC_lost. apply Forall_app. split.
    - apply Forall_fmap. eapply Forall_impl; [exact Hoks|]. by intros ? [].
    - by constructor. }
  split; [done|]. unfold Publish. cbn [negb]. by rewrite Hc.
Qed.

(** X18.  Replies that are no answer are skipped.  While [Publish] waits
    for the answer of the daemon, the replies that are not empty and do not
    begin with the message id of the answer change nothing: [Publish] ends
    as if the answer had come first. *)
Theorem Publish_skips_other_replies (ignored : list (list Z)) (body : list Z)
    (port : Z) (listen_ok : bool) (o1 o2 : list term.Pid) (s : State) :
  Forall (fun r => r <> [] /\ is_answer ALIVE2_RESP r = false) ignored ->
  Publish ALIVE2_RESP Read_ALIVE2_RESP netKernel globalNameServer
          port listen_ok (ignored ++ [ALIVE2_RESP :: body]) o1 o2 s =
  Publish ALIVE2_RESP Read_ALIVE2_RESP netKernel globalNameServer
          port listen_ok [ALIVE2_RESP :: body] o1 o2 s.
Proof.
  intros Hign. unfold Publish.
  by rewrite (epmdC_skips _ _ Hign), !epmdC_first_answer.
Qed.

(** X19.  A publication that fails keeps the tables.  Whenever [Publish]
    returns an error, or waits for an answer that the replies at hand do not
    hold, the registry, the process table and the store are as before, the
    creation stamp was not written and no accept loop was started by it;
    and when the port cannot be bound, the whole state is as before. *)
Theorem Publish_failure_keeps_tables (port : Z) (listen_ok : bool)
    (replies : list (list Z)) (o1 o2 : list term.Pid) (s : State) :
  let r := Publish ALIVE2_RESP Read_ALIVE2_RESP netKernel globalNameServer
                   port listen_ok replies o1 o2 s in
  (r.1 = PBlocked \/ (exists e, r.1 = PReturns (Some e)) ->
   registered (node r.2) = registered (node s) /\
   channels (node r.2) = channels (node s) /\
   heap r.2 = heap s /\
   Creation (node r.2) = Creation (node s) /\
   creation_writes (trace r.2) = creation_writes (trace s) /\
   accepting (trace r.2) = accepting (trace s)) /\
  (listen_ok = false -> r = (PReturns (Some ErrListen), s)).
Proof.
  cbv zeta. unfold Publish. destruct listen_ok; cbn [negb]; [|done].
  split; [|done].
  destruct (epmdC _ _ replies) as [[c|]|]; simpl.
  - destruct (c =? 99); [|destruct (c =? 100)]; simpl;
      rewrite ?creation_writes_app, ?accepting_app; simpl;
      rewrite ?app_nil_r, ?orb_false_r; try done.
    match goal with
    | |- context [prepareProcesses _ _ _ _ ?s0] =>
        destruct (prepareProcesses netKernel globalNameServer o1 o2 s0)
          as [s'|] eqn:Hp
    end; simpl; intros [?|[e ?]]; done.
  - rewrite ?creation_writes_app, ?accepting_app; simpl.
    by rewrite ?app_nil_r, ?orb_false_r.
  - intros [?|[e ?]]; done.
Qed.

End pump.

(** ** The support processes and the registry *)

Lemma range_order_insert (order : list term.Pid)
    (m : gmap term.Pid procChannels) (pid : term.Pid) (pcs : procChannels)
    (order' : list term.Pid) :
  range_order order m ->
  m !! pid = None ->
  order' ≡ₚ pid :: order ->
  range_order order' (<[pid := pcs]> m).
Proof.
  unfold range_order. intros Hord Hnone ->.
  rewrite map_to_list_insert by done. simpl. by rewrite Hord.
Qed.

Section support.

Variable netKernel : Process.
Variable globalNameServer : Process.

(** X20.  The two support processes.  Let the ids of the table leave room
    for two more, let the first order enumerate the table and the second
    the table with the first new identity, and let the options of the two
    processes ask for sizes that [make] accepts.  Then [prepareProcesses] returns;
    "net_kernel" and "global_name_server" are bound to two identities that
    had no entry before and have one now, the id of the second being one
    more than the id of the first; and every other name is bound as it
    was. *)
Theorem prepareProcesses_registers (o1 o2 : list term.Pid) (s : State) :
  range_order o1 (channels (node s)) ->
  o2 ≡ₚ allocatePid (node s) o1 :: o1 ->
  map_Forall (fun k _ => 0 <= term.Id k < 2 ^ 32 - 2) (channels (node s)) ->
  fits netKernel ->
  fits globalNameServer ->
  exists s' p1 p2,
    prepareProcesses netKernel globalNameServer o1 o2 s = Ok s' /\
    Whereis s' "net_kernel" = p1 /\
    Whereis s' "global_name_server" = p2 /\
    term.Id p2 = term.Id p1 + 1 /\
    channels (node s) !! p1 = None /\
    channels (node s) !! p2 = None /\
    is_Some (channels (node s') !! p1) /\
    is_Some (channels (node s') !! p2) /\
    (forall a, a <> "net_kernel"%string -> a <> "global_name_server"%string ->
               registered (node s') !! a = registered (node s) !! a).
Proof.
  intros Hord1 Hord2 Hroom Hnk Hgns.
  assert (Hbound : ids_below_max (channels (node s))).
  { eapply map_Forall_impl; [exact Hroom|]. simpl. intros; lia. }
  destruct (Spawn_returns netKernel [VNode] o1 s Hnk) as (p1 & s1 & H1).
  pose proof H1 as (? & ? & E1)%Spawn_Ok. simpl in E1.
  destruct E1 as (_ & _ & Hp1 & _ & Hinfo1 & Hreg1 & Hch1 & _).
  pose proof (allocatePid_absent _ _ Hord1 Hbound) as Hnone1.
  pose proof (allocatePid_above _ _ Hord1 Hbound) as Habove1.
  pose proof (allocatePid_origin _ _ Hord1 Hbound) as Horigin1.
  rewrite <- Hp1 in Hnone1, Habove1, Horigin1, Hord2.
  set (s1r := Register "net_kernel" p1 s1).
  assert (Hch1r : channels (node s1r) = channels (node s1)) by done.
  assert (Hord2' : range_order o2 (channels (node s1r))).
  { rewrite Hch1r, Hch1. by eapply range_order_insert. }
  assert (Hbound1 : ids_below_max (channels (node s1r))).
  { rewrite Hch1r, Hch1. apply map_Forall_insert_2; [|done].
    destruct Horigin1 as [->|(k & [v Hv] & ->)]; [lia|].
    pose proof (Hroom k v Hv) as Hb. simpl in Hb. lia. }
  assert (Hreg1r : registered (node s1r)
                   = <["net_kernel"%string := p1]> (registered (node s)))
    by (simpl; by rewrite Hreg1).
  destruct (Spawn_returns globalNameServer [VNode] o2 s1r Hgns) as (p2 & s2 & H2).
  pose proof H2 as (? & ? & E2)%Spawn_Ok. cbv zeta in E2.
  destruct E2 as (_ & _ & Hp2 & _ & Hinfo2 & Hreg2 & Hch2 & _).
  pose proof (allocatePid_absent _ _ Hord2' Hbound1) as Hnone2.
  pose proof (allocatePid_above _ _ Hord2' Hbound1) as Habove2.
  pose proof (allocatePid_origin _ _ Hord2' Hbound1) as Horigin2.
  rewrite <- Hp2 in Hnone2, Habove2, Horigin2.
  rewrite Hch1r, Hch1 in Hnone2, Habove2, Horigin2, Hch2.
  assert (Hgt : term.Id p1 < term.Id p2).
  { apply Habove2. rewrite lookup_insert_eq. by eexists. }
  assert (Hne : p1 <> p2) by (intros ->; lia).
  exists (Register "global_name_server" p2 s2), p1, p2.
  split.
  { unfold prepareProcesses. rewrite H1. cbn [mbind result_bind].
    change (Register "net_kernel" p1 s1) with s1r. by rewrite H2. }
  rewrite !Whereis_lookup.
  assert (Hregf : registered (node (Register "global_name_server" p2 s2))
                  = <["global_name_server"%string := p2]>
                      (<["net_kernel"%string := p1]> (registered (node s))))
    by (simpl; by rewrite Hreg2, Hreg1r).
  assert (Hchf : channels (node (Register "global_name_server" p2 s2))
                 = channels (node s2)) by done.
  rewrite Hregf, Hchf, Hch2.
  rewrite lookup_insert_eq, lookup_insert_ne, lookup_insert_eq by done.
  split_and!; try done.
  - destruct Horigin2 as [Hz|(k & Hk & Heq)].
    + destruct Horigin1 as [Hz1|(k1 & [v Hv] & Hk1)]; [lia|].
      pose proof (Hroom k1 v Hv) as Hb. simpl in Hb. lia.
    + rewrite lookup_insert in Hk. case_decide as Hkp; [subst k; lia|].
      specialize (Habove1 k Hk). lia.
  - by rewrite lookup_insert_ne in Hnone2.
  - rewrite lookup_insert_ne, lookup_insert_eq by done. by eexists.
  - rewrite lookup_insert_eq. by eexists.
  - intros a Ha1 Ha2. by rewrite !lookup_insert_ne.
Qed.

End support.

Lemma run_registered_other (calls : list Call) (s : State) (who : term.Atom) :
  who ∉ registered_names calls ->
  registered (node (run calls s)) !! who = registered (node s) !! who.
Proof.
  revert s. induction calls as [|c calls IH]; intros s Hwho; [done|].
  unfold run in *. simpl.
  destruct c as [pd args order|name pid|to message|from to message];
    simpl in Hwho; rewrite IH by set_solver;
    rewrite call_registered; try done.
  apply lookup_insert_ne. set_solver.
Qed.

(** X7.  What a name resolves to is moved by its own registrations only.
    After any sequence of calls that does not register a name (spawns,
    sends, registrations of other names), [Whereis] returns for it what it
    returned before. *)
Theorem Whereis_stable (calls : list Call) (s : State) (who : term.Atom) :
  who ∉ registered_names calls ->
  Whereis (run calls s) who = Whereis s who.
Proof.
  intros Hwho. by rewrite !Whereis_lookup, run_registered_other.
Qed.

End more.

(** ** More of the node, at work *)

Section more_at_work.

Local Existing Instance demo_runtime.

Lemma echo_fits : fits echo.
Proof. repeat split; by vm_compute. Qed.

Lemma served_order : range_order [pid0] (channels (node served)).
Proof. unfold range_order. by vm_compute. Qed.

Lemma served_ids : ids_below_max (channels (node served)).
Proof. apply (bool_decide_unpack _). by vm_compute. Qed.

Lemma paired_ids : ids_below_max (channels (node paired)).
Proof. apply (bool_decide_unpack _). by vm_compute. Qed.

Lemma paired_order : range_order [pid0; pid1] (channels (node paired)).
Proof.
  unfold range_order. set (keys := (map_to_list _).*1).
  assert (Hl : keys = [pid0; pid1] \/ keys = [pid1; pid0]) by (vm_compute; auto).
  destruct Hl as [->| ->]; [done|apply perm_swap].
Qed.

Lemma paired_order_back : range_order [pid1; pid0] (channels (node paired)).
Proof.
  unfold range_order. set (keys := (map_to_list _).*1).
  assert (Hl : keys = [pid0; pid1] \/ keys = [pid1; pid0]) by (vm_compute; auto).
  destruct Hl as [->| ->]; [apply perm_swap|done].
Qed.

(** C6, at the bound: a size of 2^62 is more than the platform makes. *)
Lemma Spawn_rejects_large_size : Spawn greedy [] [] fresh = Panic.
Proof. by vm_compute. Qed.

(** X1, at work. *)
Lemma Spawn_adds_one_entry_witness :
  range_order [pid0] (channels (node served)) /\
  ids_below_max (channels (node served)) /\
  fits echo /\
  exists pid s' pcs,
    Spawn echo [VNode] [pid0] served = Ok (pid, s') /\
    channels (node served) !! pid = None /\
    channels (node s') = <[pid := pcs]> (channels (node served)) /\
    size (channels (node s')) = S (size (channels (node served))) /\
    (forall p q, channels (node served) !! p = Some q ->
                 channels (node s') !! p = Some q) /\
    registered (node s') = registered (node served) /\
    last (trace s') = Some (EvGoProcessLoop pid pcs [VNode]).
Proof.
  split; [exact served_order|]. split; [exact served_ids|].
  split; [exact echo_fits|].
  exact (Spawn_adds_one_entry echo [VNode] [pid0] served
           served_order served_ids echo_fits).
Defined.

(** X2, at work. *)
Lemma Spawn_fresh_queues_witness :
  wf served /\
  fits echo /\
  exists pid s' pcs,
    Spawn echo [VNode] [pid0] served = Ok (pid, s') /\
    channels (node s') !! pid = Some pcs /\
    (forall j ch, heap served !! j = Some ch -> heap s' !! j = Some ch) /\
    length (heap s') = (length (heap served) + 3)%nat /\
    NoDup (refs pcs) /\
    (forall c, c ∈ refs pcs ->
       chan_at served c = None /\ queue <$> chan_at s' c = Some []) /\
    (forall p q c, channels (node served) !! p = Some q -> c ∈ refs q ->
                   c ∉ refs pcs).
Proof.
  split; [exact served_wf|]. split; [exact echo_fits|].
  exact (Spawn_fresh_queues echo [VNode] [pid0] served served_wf echo_fits).
Defined.

(** X3, at work. *)
Lemma Spawn_control_capacity_witness :
  fits echo /\
  exists pid s' pcs,
    Spawn echo [] [] fresh = Ok (pid, s') /\
    channels (node s') !! pid = Some pcs /\
    cap_of (heap s') (ctl pcs) =
    Some (match Behaviour echo !! "chan-size"%string with
          | Some (VInt z) => z
          | _ => 0
          end).
Proof.
  split; [exact echo_fits|].
  exact (Spawn_control_capacity echo [] [] fresh echo_fits).
Defined.

(** X4, at work: two spawns on the fresh node. *)
Lemma spawn_all_ids_witness :
  boot "eclus@localhost" "secret" = Ok fresh /\
  orders_valid two_spawns fresh /\
  Forall (fun r : SpawnReq => fits r.1.1) two_spawns /\
  Z.of_nat (length two_spawns) < 2 ^ 32 /\
  exists pids s',
    spawn_all two_spawns fresh = Ok (pids, s') /\
    term.Id <$> pids = Z.of_nat <$> seq 0 (length two_spawns) /\
    NoDup pids /\
    (forall p, p ∈ pids -> is_Some (channels (node s') !! p)).
Proof.
  assert (Hvalid : orders_valid two_spawns fresh).
  { split; [unfold range_order; by vm_compute|].
    change (Spawn echo [] [] fresh) with (Ok (pid0, call (CallSpawn echo [] []) fresh)).
    split; [|done]. unfold range_order. by vm_compute. }
  assert (Hfits : Forall (fun r : SpawnReq => fits r.1.1) two_spawns).
  { repeat constructor; by vm_compute. }
  assert (Hlen : Z.of_nat (length two_spawns) < 2 ^ 32) by (by vm_compute).
  split; [reflexivity|]. split; [exact Hvalid|]. split; [exact Hfits|].
  split; [exact Hlen|].
  exact (spawn_all_ids "eclus@localhost" "secret" fresh two_spawns
           eq_refl Hvalid Hfits Hlen).
Defined.

(** X5, at work: the table of two processes, in its two orders. *)
Lemma allocatePid_order_independent_witness :
  range_order [pid0; pid1] (channels (node paired)) /\
  range_order [pid1; pid0] (channels (node paired)) /\
  ids_below_max (channels (node paired)) /\
  allocatePid (node paired) [pid0; pid1] = allocatePid (node paired) [pid1; pid0].
Proof.
  split; [exact paired_order|]. split; [exact paired_order_back|].
  split; [exact paired_ids|].
  exact (allocatePid_order_independent (node paired) [pid0; pid1] [pid1; pid0]
           paired_order paired_order_back paired_ids).
Defined.

(** X6, at work: three messages to the process of the serving node. *)
Lemma send_all_fifo_witness :
  wf served /\
  channels (node served) !! pid0 =
    Some (mkProcChannels (Some 0%nat) (Some 1%nat) (Some 2%nat)) /\
  exists i ch,
    in_ (mkProcChannels (Some 0%nat) (Some 1%nat) (Some 2%nat)) = Some i /\
    heap served !! i = Some ch /\
    send_all pid0 letters served =
    (replicate (room ch `min` length letters) Returned
       ++ (if decide (room ch < length letters)%nat then [Waiting] else []),
     mkState (node served)
             (<[i := mkChan (cap ch) (queue ch ++ take (S (room ch)) letters)]>
                (heap served))
             (trace served)).
Proof.
  split; [exact served_wf|]. split; [exact served_pid0|].
  exact (send_all_fifo pid0 letters served _ served_wf served_pid0).
Defined.

(** X7, at work: the session registers "echo" and "log", not "mail". *)
Lemma Whereis_stable_witness :
  ("mail"%string ∉ registered_names session) /\
  Whereis (run session (Register "mail" ghost fresh)) "mail" =
  Whereis (Register "mail" ghost fresh) "mail".
Proof.
  assert (Hnot : "mail"%string ∉ registered_names session).
  { apply (bool_decide_unpack _). by vm_compute. }
  split; [exact Hnot|].
  exact (Whereis_stable session (Register "mail" ghost fresh) "mail" Hnot).
Defined.

(** X8, at work: a history with two spawns, a registration, a dispatch. *)
Lemma exec_invariant_witness :
  boot "eclus@localhost" "secret" = Ok fresh /\
  (forall pid pcs,
     channels (node (demo_exec history)) !! pid = Some pcs ->
     term.Node pid = "eclus@localhost"%string /\
     NoDup (refs pcs) /\
     forall c, c ∈ refs pcs -> is_Some (chan_at (demo_exec history) c)) /\
  (forall p1 p2 pcs1 pcs2 c,
     p1 <> p2 ->
     channels (node (demo_exec history)) !! p1 = Some pcs1 ->
     channels (node (demo_exec history)) !! p2 = Some pcs2 ->
     c ∈ refs pcs1 -> c ∉ refs pcs2).
Proof.
  split; [reflexivity|].
  exact (exec_invariant demo_REG_SEND demo_ALIVE2_RESP demo_Read_ALIVE2_RESP
           echo echo "eclus@localhost" "secret" fresh history eq_refl).
Defined.

Lemma history_pid0 :
  channels (node (demo_exec history)) !! pid0 =
  Some (mkProcChannels (Some 0%nat) (Some 1%nat) (Some 2%nat)).
Proof. by vm_compute. Qed.

(** X9, at work: a send to the first process of the history. *)
Lemma sends_touch_one_queue_witness :
  boot "eclus@localhost" "secret" = Ok fresh /\
  channels (node (demo_exec history)) !! pid0 =
    Some (mkProcChannels (Some 0%nat) (Some 1%nat) (Some 2%nat)) /\
  exists ch_in ch_from,
    chan_at (demo_exec history) (Some 0%nat) = Some ch_in /\
    chan_at (demo_exec history) (Some 1%nat) = Some ch_from /\
    chan_at (Send pid0 hello (demo_exec history)).2 (Some 0%nat)
      = Some (enqueue hello ch_in) /\
    chan_at (SendFrom (term.PidT remote) pid0 hello (demo_exec history)).2
            (Some 1%nat)
      = Some (enqueue (term.Tuple [term.PidT remote; hello]) ch_from) /\
    (forall p q c,
       p <> pid0 -> channels (node (demo_exec history)) !! p = Some q ->
       c ∈ refs q ->
       chan_at (Send pid0 hello (demo_exec history)).2 c
         = chan_at (demo_exec history) c /\
       chan_at (SendFrom (term.PidT remote) pid0 hello (demo_exec history)).2 c
         = chan_at (demo_exec history) c).
Proof.
  split; [reflexivity|]. split; [exact history_pid0|].
  destruct (sends_touch_one_queue demo_REG_SEND demo_ALIVE2_RESP
              demo_Read_ALIVE2_RESP echo echo "eclus@localhost" "secret" fresh
              history (term.PidT remote) pid0 hello _ eq_refl history_pid0)
    as (ch_in & ch_from & H1 & H2 & H3 & _ & _ & H6 & _ & _ & H9).
  exists ch_in, ch_from.
  split; [exact H1|]. split; [exact H2|]. split; [exact H3|].
  split; [exact H6|]. exact H9.
Defined.

(** X10, at work: a registered send to the identity of the process. *)
Lemma handleTerms_pid_destination_witness :
  wf served /\
  term.Element (reg_send_to_pid pid0) 1 = Some (term.Int demo_REG_SEND) /\
  term.Element (reg_send_to_pid pid0) 4 = Some (term.PidT pid0) /\
  exists from,
    term.Element (reg_send_to_pid pid0) 2 = Some from /\
    (forall pcs,
       channels (node served) !! pid0 = Some pcs ->
       exists i ch,
         inFrom pcs = Some i /\
         heap served !! i = Some ch /\
         handleTerms demo_REG_SEND [term.Tuple (reg_send_to_pid pid0); hello]
                     served =
         (if has_room ch then Returned else Waiting,
          mkState (node served)
                  (<[i := enqueue (term.Tuple [from; hello]) ch]> (heap served))
                  (trace served))) /\
    (channels (node served) !! pid0 = None ->
     handleTerms demo_REG_SEND [term.Tuple (reg_send_to_pid pid0); hello] served
     = (BlockedForever, served)).
Proof.
  split; [exact served_wf|]. split; [reflexivity|]. split; [reflexivity|].
  exact (handleTerms_pid_destination demo_REG_SEND served (reg_send_to_pid pid0)
           pid0 hello served_wf eq_refl eq_refl).
Defined.

(** X11, at work: a registered send to a number. *)
Lemma handleTerms_other_destination_witness :
  wf served /\
  term.Element reg_send_to_number 1 = Some (term.Int demo_REG_SEND) /\
  term.Element reg_send_to_number 4 = Some (term.Int 5) /\
  handleTerms demo_REG_SEND [term.Tuple reg_send_to_number; hello] served =
  (BlockedForever, served).
Proof.
  split; [exact served_wf|]. split; [reflexivity|]. split; [reflexivity|].
  apply (handleTerms_other_destination demo_REG_SEND served reg_send_to_number
           (term.Int 5) hello served_wf eq_refl eq_refl); discriminate.
Defined.

(** X12, at work: a registered send whose control tuple is too short. *)
Lemma handleTerms_faults_iff_witness :
  wf served /\
  ((handleTerms demo_REG_SEND [term.Tuple reg_send_short; hello] served).1
   = Panicked <->
   exists t message,
     [term.Tuple reg_send_short; hello] = [term.Tuple t; message] /\
     term.Element t 1 = Some (term.Int demo_REG_SEND) /\
     (length t < 4)%nat) /\
  (handleTerms demo_REG_SEND [term.Tuple reg_send_short; hello] served).1
  = Panicked.
Proof.
  split; [exact served_wf|].
  pose proof (handleTerms_faults_iff demo_REG_SEND
                [term.Tuple reg_send_short; hello] served served_wf) as Hiff.
  split; [exact Hiff|].
  apply Hiff. exists reg_send_short, hello.
  split; [reflexivity|]. split; [reflexivity|]. simpl. lia.
Defined.

(** X14, at work: two registered sends to "echo", then the end. *)
Lemma mLoop_delivers_in_order_witness :
  registered (node served) !! "echo"%string = Some pid0 /\
  channels (node served) !! pid0 =
    Some (mkProcChannels (Some 0%nat) (Some 1%nat) (Some 2%nat)) /\
  heap served !! 1%nat = Some (mkChan 100 []) /\
  Z.of_nat (length (queue (mkChan 100 [])) + length parcels) <= 100 /\
  mLoop demo_REG_SEND
        (map (reg_send_frame demo_REG_SEND (term.AtomT "") "echo") parcels
           ++ [ReadError]) served =
  (LClosed,
   mkState (node served)
           (<[1%nat := mkChan 100 (map (fun m => term.Tuple [m.1; m.2]) parcels)]>
              (heap served))
           (trace served)).
Proof.
  split; [exact served_echo|]. split; [exact served_pid0|].
  split; [reflexivity|]. split; [by vm_compute|].
  apply (mLoop_delivers_in_order demo_REG_SEND (term.AtomT "") "echo" parcels []
           served pid0 _ 1%nat (mkChan 100 []) served_echo served_pid0 eq_refl
           eq_refl).
  by vm_compute.
Defined.

(** X15, at work: a registered send to "nobody", with more behind it. *)
Lemma mLoop_hangs_on_unbound_name_witness :
  wf served /\
  registered (node served) !! "nobody"%string = None /\
  mLoop demo_REG_SEND
        (reg_send_frame demo_REG_SEND (term.AtomT "") "nobody"
                        (term.PidT remote, hello)
           :: [ReadFrame [term.Tuple (reg_send_to "echo"); hello]; ReadError])
        served =
  (LBlockedForever, served).
Proof.
  split; [exact served_wf|]. split; [reflexivity|].
  exact (mLoop_hangs_on_unbound_name demo_REG_SEND (term.AtomT "") "nobody"
           (term.PidT remote, hello) _ served served_wf eq_refl).
Defined.

(** X17, at work: the daemon sends four stray bytes, then the read fails. *)
Lemma Publish_faults_on_lost_connection_witness :
  Forall (fun r : list Z * bool =>
            r.2 = false /\ is_answer demo_ALIVE2_RESP r.1 = false)
         [(stray, false)] /\
  is_answer demo_ALIVE2_RESP [] = false /\
  epmdC demo_ALIVE2_RESP demo_Read_ALIVE2_RESP
        (epmdREADER ([(stray, false)] ++ [([], true)])) = Panic /\
  (Publish demo_ALIVE2_RESP demo_Read_ALIVE2_RESP echo echo 4000 true
           (epmdREADER ([(stray, false)] ++ [([], true)])) [] [pid0] fresh).1
  = PPanicked.
Proof.
  assert (Hoks : Forall (fun r : list Z * bool =>
                           r.2 = false /\ is_answer demo_ALIVE2_RESP r.1 = false)
                        [(stray, false)]).
  { repeat constructor. }
  split; [exact Hoks|]. split; [reflexivity|].
  exact (Publish_faults_on_lost_connection demo_ALIVE2_RESP
           demo_Read_ALIVE2_RESP echo echo [(stray, false)] [] [] 4000 []
           [pid0] fresh Hoks eq_refl).
Defined.

(** X18, at work: four stray bytes before the answer. *)
Lemma Publish_skips_other_replies_witness :
  Forall (fun r => r <> [] /\ is_answer demo_ALIVE2_RESP r = false) [stray] /\
  Publish demo_ALIVE2_RESP demo_Read_ALIVE2_RESP echo echo 4000 true
          ([stray] ++ [demo_ALIVE2_RESP :: answer_stamp_2]) [] [pid0] fresh =
  Publish demo_ALIVE2_RESP demo_Read_ALIVE2_RESP echo echo 4000 true
          [demo_ALIVE2_RESP :: answer_stamp_2] [] [pid0] fresh.
Proof.
  assert (Hign : Forall (fun r => r <> [] /\ is_answer demo_ALIVE2_RESP r = false)
                        [stray]).
  { repeat constructor. discriminate. }
  split; [exact Hign|].
  exact (Publish_skips_other_replies demo_ALIVE2_RESP demo_Read_ALIVE2_RESP
           echo echo [stray] answer_stamp_2 4000 true [] [pid0] fresh Hign).
Defined.

(** X20, at work: the support processes of the fresh node. *)
Lemma prepareProcesses_registers_witness :
  range_order [] (channels (node fresh)) /\
  [pid0] ≡ₚ allocatePid (node fresh) [] :: [] /\
  map_Forall (fun k _ => 0 <= term.Id k < 2 ^ 32 - 2) (channels (node fresh)) /\
  fits echo /\
  exists s' p1 p2,
    prepareProcesses echo echo [] [pid0] fresh = Ok s' /\
    Whereis s' "net_kernel" = p1 /\
    Whereis s' "global_name_server" = p2 /\
    term.Id p2 = term.Id p1 + 1 /\
    channels (node fresh) !! p1 = None /\
    channels (node fresh) !! p2 = None /\
    is_Some (channels (node s') !! p1) /\
    is_Some (channels (node s') !! p2) /\
    (forall a, a <> "net_kernel"%string -> a <> "global_name_server"%string ->
               registered (node s') !! a = registered (node fresh) !! a).
Proof.
  assert (H1 : range_order [] (channels (node fresh))).
  { unfold range_order. by vm_compute. }
  assert (H2 : [pid0] ≡ₚ allocatePid (node fresh) [] :: []) by done.
  assert (H3 : map_Forall (fun k _ => 0 <= term.Id k < 2 ^ 32 - 2)
                          (channels (node fresh))).
  { apply map_Forall_empty. }
  split; [exact H1|]. split; [exact H2|]. split; [exact H3|].
  split; [exact echo_fits|].
  exact (prepareProcesses_registers echo echo [] [pid0] fresh H1 H2 H3
           echo_fits echo_fits).
Defined.

End more_at_work.
